(** * Oceanside AI site: the particle field, the canvas life cycle, the lead
      form and the theme hook

    A shallow embedding of [src/styles/main.jsx].

    - The numeric code of [ParticleField] (initialization and the per-frame
      update) is written once, over an interface of JavaScript number
      operations, and read at two instances: the real numbers, for the
      statements that quantify over every point and every frame count, and
      IEEE-754 binary64, the numbers the browser computes with, for
      concrete runs.
    - The effects of [ParticleField] and [SoundWaves] (listeners, animation
      frames, cleanup) run over an explicit state of the browser window and
      of the component; what the browser and React do to the page (events,
      layout, renders) is a list of events, in any order.
    - [LeadForm.onSubmit] is written in a small monad of state and
      exceptions, [useTheme] over a finite map for [localStorage].

    The definitions come first, the properties after them. *)

From Stdlib Require Import ZArith Reals Lra Lia List Bool Floats.
From stdpp Require Import gmap strings.

Set Warnings "-inexact-float".
#[local] Open Scope Z_scope.

(** ** JavaScript numbers *)

(** The operations [main.jsx] applies to numbers.  [dec m k] is the decimal
    literal [m * 10^-k]; [num_lt] is the comparison [<]; [of_Z] reads an
    integer (a DOM attribute such as [canvas.clientWidth]) as a number and
    [trunc] is the conversion the DOM applies when a number is stored in an
    integer attribute such as [canvas.width]. *)
Class Number (A : Type) := {
  num_add : A -> A -> A;
  num_sub : A -> A -> A;
  num_mul : A -> A -> A;
  num_div : A -> A -> A;
  Math_sqrt : A -> A;
  Math_min : A -> A -> A;
  num_lt : A -> A -> bool;
  Math_floor : A -> Z;
  of_Z : Z -> A;
  trunc : A -> Z
}.

Declare Scope num_scope.
Delimit Scope num_scope with num.
Infix "+" := num_add : num_scope.
Infix "-" := num_sub : num_scope.
Infix "*" := num_mul : num_scope.
Infix "/" := num_div : num_scope.
Infix "<?" := num_lt : num_scope.

Definition dec {A} `{Number A} (m : Z) (k : nat) : A :=
  match k with
  | O => of_Z m
  | _ => num_div (of_Z m) (of_Z (10 ^ Z.of_nat k))
  end.

(** *** Exact real numbers *)

Definition Rltb (a b : R) : bool := if Rlt_dec a b then true else false.

Definition Rtrunc (a : R) : Z :=
  if Rlt_dec a 0 then (- Int_part (- a))%Z else Int_part a.

#[export] Instance R_number : Number R := {
  num_add := Rplus;
  num_sub := Rminus;
  num_mul := Rmult;
  num_div := Rdiv;
  Math_sqrt := R_sqrt.sqrt;
  Math_min := Rmin;
  num_lt := Rltb;
  Math_floor := Int_part;
  of_Z := IZR;
  trunc := Rtrunc
}.

(** *** IEEE-754 binary64 *)

(** An integer below 2^63 in size as a number; a decimal literal is then the
    quotient of two such numbers, which rounds to the double nearest to the
    decimal. *)
Definition float_of_Z (z : Z) : float :=
  match z with
  | Z0 => PrimFloat.zero
  | Zpos _ => PrimFloat.of_uint63 (Uint63.of_Z z)
  | Zneg p => PrimFloat.opp (PrimFloat.of_uint63 (Uint63.of_Z (Zpos p)))
  end.

(** [Math.min]: NaN if either argument is NaN, and [-0] below [+0]. *)
Definition float_min (a b : float) : float :=
  if PrimFloat.is_nan a then a
  else if PrimFloat.is_nan b then b
  else if PrimFloat.ltb a b then a
  else if PrimFloat.ltb b a then b
  else if PrimFloat.get_sign a then a else b.

(** Truncation toward zero; NaN and the infinities convert to 0. *)
Definition float_trunc (a : float) : Z :=
  match Prim2SF a with
  | S754_finite s m e =>
      let n := if (0 <=? e)%Z then Z.shiftl (Zpos m) e
               else Z.shiftr (Zpos m) (- e) in
      if s then (- n)%Z else n
  | _ => 0%Z
  end.

(** [Math.floor] of a finite number (the code applies it to a quotient of
    integers only). *)
Definition float_floor (a : float) : Z :=
  match Prim2SF a with
  | S754_finite s m e =>
      let z := if s then Zneg m else Zpos m in
      if (0 <=? e)%Z then Z.shiftl z e else Z.shiftr z (- e)
  | _ => 0%Z
  end.

#[export] Instance float_number : Number float := {
  num_add := PrimFloat.add;
  num_sub := PrimFloat.sub;
  num_mul := PrimFloat.mul;
  num_div := PrimFloat.div;
  Math_sqrt := PrimFloat.sqrt;
  Math_min := float_min;
  num_lt := PrimFloat.ltb;
  Math_floor := float_floor;
  of_Z := float_of_Z;
  trunc := float_trunc
}.

(** *** [Object.is] *)

(** React compares the dependencies of an effect with [Object.is].  On
    numbers this is equality of the values, [NaN] being the same as [NaN]
    and [+0] different from [-0]: Leibniz equality of the reals and of
    the binary64 numbers. *)
#[export] Instance R_eq_dec : EqDecision R := Req_dec_T.

#[export] Instance float_eq_dec : EqDecision float.
Proof.
  intros x y. destruct (PrimFloat.Leibniz.eqb x y) eqn:E.
  - left. apply FloatAxioms.Leibniz.eqb_spec. exact E.
  - right. intros Heq. apply FloatAxioms.Leibniz.eqb_spec in Heq. congruence.
Defined.

(** ** The particle field *)

Section Simulator.
Context {A : Type} `{Number A}.
#[local] Open Scope num_scope.

(** One element of [particles.current]. *)
Record Particle := mkParticle {
  p_x : A; p_y : A; p_vx : A; p_vy : A; p_r : A; p_o : A
}.

Definition set_x (p : Particle) (v : A) : Particle :=
  mkParticle v (p_y p) (p_vx p) (p_vy p) (p_r p) (p_o p).
Definition set_y (p : Particle) (v : A) : Particle :=
  mkParticle (p_x p) v (p_vx p) (p_vy p) (p_r p) (p_o p).
Definition set_vx (p : Particle) (v : A) : Particle :=
  mkParticle (p_x p) (p_y p) v (p_vy p) (p_r p) (p_o p).
Definition set_vy (p : Particle) (v : A) : Particle :=
  mkParticle (p_x p) (p_y p) (p_vx p) v (p_r p) (p_o p).

(** The body of [particles.current.forEach((p) => ...)] up to the drawing
    calls, statement by statement; [width] and [height] are
    [canvas.width] and [canvas.height]. *)
Definition update (width height mx my : A) (p : Particle) : Particle :=
  let dx := p_x p - mx in
  let dy := p_y p - my in
  let dist := Math_sqrt (dx * dx + dy * dy) + dec 1 3 in
  let force := Math_min (dec 30 0 / dist) (dec 6 1) in
  let p := set_vx p (p_vx p + (dx / dist) * force * dec 2 2) in
  let p := set_vy p (p_vy p + (dy / dist) * force * dec 2 2) in
  let p := set_x p (p_x p + p_vx p) in
  let p := set_y p (p_y p + p_vy p) in
  let p := set_vx p (p_vx p * dec 98 2) in
  let p := set_vy p (p_vy p * dec 98 2) in
  let p := if (p_x p <? dec 0 0) || (width <? p_x p)
           then set_vx p (p_vx p * dec (-1) 0) else p in
  let p := if (p_y p <? dec 0 0) || (height <? p_y p)
           then set_vy p (p_vy p * dec (-1) 0) else p in
  p.

(** [n] frames with the pointer held at [(mx, my)]. *)
Fixpoint frames (n : nat) (width height mx my : A) (p : Particle) : Particle :=
  match n with
  | O => p
  | S n => frames n width height mx my (update width height mx my p)
  end.

(** The canvas element: its CSS size ([clientWidth], [clientHeight]) and
    the size of its drawing surface ([width], [height]), all integers. *)
Record Canvas := mkCanvas {
  clientWidth : Z; clientHeight : Z; width : Z; height : Z
}.

(** [const count = Math.floor((canvas.clientWidth * canvas.clientHeight) / 18000)] *)
Definition count (c : Canvas) : Z :=
  Math_floor (of_Z (clientWidth c) * of_Z (clientHeight c) / dec 18000 0).

(** The object literal of the [map] callback; [rand i], [rand (i+1)], ...
    are the results of its six [Math.random()] calls, in evaluation
    order. *)
Definition new_particle (c : Canvas) (rand : nat -> A) (i : nat) : Particle :=
  mkParticle
    (rand i * of_Z (width c))
    (rand (i + 1)%nat * of_Z (height c))
    ((rand (i + 2)%nat - dec 5 1) * dec 4 1)
    ((rand (i + 3)%nat - dec 5 1) * dec 4 1)
    (rand (i + 4)%nat * dec 2 0 + dec 5 1)
    (rand (i + 5)%nat * dec 6 1 + dec 2 1).

(** [new Array(n).fill(0).map(() => ...)], the generator having been
    called [i] times before. *)
Fixpoint fill_map (c : Canvas) (rand : nat -> A) (i n : nat) : list Particle :=
  match n with
  | O => nil
  | S n => new_particle c rand i :: fill_map c rand (i + 6)%nat n
  end.

Definition particle_count (c : Canvas) : nat := Z.to_nat (Z.max 60 (count c)).

Definition init_particles (c : Canvas) (rand : nat -> A) (i : nat) : list Particle :=
  fill_map c rand i (particle_count c).

End Simulator.

Arguments Particle A : clear implicits.
Arguments mkParticle {A} _ _ _ _ _ _.

(** ** Mounting and unmounting the canvas components *)

(** The two components that own a canvas. *)
Inductive Component := ParticleField | SoundWaves.

(** The function objects the components hand to the browser.  [resize],
    [loop] and [draw] are created afresh by every run of the canvas effect:
    [run] tells the closures of different runs apart, and [mouse] is the
    value of [mouse] the frame callback has captured. *)
Inductive Callback :=
| OnMove
| Resize (run : nat)
| Loop (run : nat) (mouse : Z * Z)
| Draw (run : nat) (mouse : Z * Z).

#[export] Instance Callback_eq_dec : EqDecision Callback.
Proof. solve_decision. Defined.

Inductive EventType := mousemove | resize_event.

#[export] Instance EventType_eq_dec : EqDecision EventType.
Proof. solve_decision. Defined.

(** What the browser holds for the page: the registered listeners, the
    pending [requestAnimationFrame] callbacks with their handles, and the
    next handle to give out. *)
Record Window := mkWindow {
  listeners : list (EventType * Callback);
  frame_requests : list (nat * Callback);
  next_handle : nat
}.

Definition addEventListener (ty : EventType) (cb : Callback) (w : Window) : Window :=
  if decide ((ty, cb) ∈ listeners w) then w
  else mkWindow (listeners w ++ [(ty, cb)]) (frame_requests w) (next_handle w).

Definition removeEventListener (ty : EventType) (cb : Callback) (w : Window) : Window :=
  mkWindow (filter (fun l => l <> (ty, cb)) (listeners w))
           (frame_requests w) (next_handle w).

Definition requestAnimationFrame (cb : Callback) (w : Window) : nat * Window :=
  (next_handle w,
   mkWindow (listeners w) (frame_requests w ++ [(next_handle w, cb)])
            (S (next_handle w))).

Definition cancelAnimationFrame (h : option nat) (w : Window) : Window :=
  match h with
  | None => w
  | Some h => mkWindow (listeners w)
                       (filter (fun r => fst r <> h) (frame_requests w))
                       (next_handle w)
  end.

Section Lifecycle.
Context {A : Type} `{Number A} `{EqDecision A}.
#[local] Open Scope num_scope.

(** [devicePixelRatio] is [window.devicePixelRatio] at the first render;
    [rand] lists the results of the successive calls of [Math.random()];
    [wave_height] is the [height] prop of [SoundWaves], which the page
    never changes.  Mouse coordinates are the integers [clientX] and
    [clientY]. *)
Variable devicePixelRatio : A.
Variable rand : nat -> A.
Variable wave_height : Z.

(** The page with one mounted component: the browser side; the state
    [pos] of [useCursor] as last set; the number of the latest run of the
    canvas effect and its dependencies [dpr, mouse.x, mouse.y]; the
    dependencies of a render whose canvas effect React has still to run,
    if there is one; for each run, the variable [raf] and the constant
    [dpr] of its closures; the canvas, [particles.current], the number of
    random numbers drawn, and the callbacks run so far. *)
Record World := mkWorld {
  window : Window;
  mounted : bool;
  pos : Z * Z;
  effect_run : nat;
  effect_deps : A * (Z * Z);
  pending : option (A * (Z * Z));
  raf : gmap nat nat;
  dprs : gmap nat A;
  canvas : Canvas;
  particles : list (Particle A);
  rng : nat;
  log : list Callback
}.

Definition with_window (w : World) (win : Window) : World :=
  mkWorld win (mounted w) (pos w) (effect_run w) (effect_deps w) (pending w) (raf w)
          (dprs w) (canvas w) (particles w) (rng w) (log w).

Definition with_canvas (w : World) (cv : Canvas) : World :=
  mkWorld (window w) (mounted w) (pos w) (effect_run w) (effect_deps w) (pending w)
          (raf w) (dprs w) cv (particles w) (rng w) (log w).

Definition with_pending (w : World) (deps : option (A * (Z * Z))) : World :=
  mkWorld (window w) (mounted w) (pos w) (effect_run w) (effect_deps w) deps
          (raf w) (dprs w) (canvas w) (particles w) (rng w) (log w).

Definition logged (cb : Callback) (w : World) : World :=
  mkWorld (window w) (mounted w) (pos w) (effect_run w) (effect_deps w) (pending w)
          (raf w) (dprs w) (canvas w) (particles w) (rng w) (log w ++ [cb]).

(** [dpr] as the closures of run [k] see it (every run has one). *)
Definition dpr_of (k : nat) (w : World) : A := default (dec 1 0) (dprs w !! k).

(** [const resize = () => { canvas.width = ...; canvas.height = ... }] of
    run [k]: it reads the CSS size the canvas has when it is called. *)
Definition resize (c : Component) (k : nat) (w : World) : World :=
  let cv := canvas w in
  let dpr := dpr_of k w in
  let cv' :=
    mkCanvas (clientWidth cv) (clientHeight cv)
      (trunc (of_Z (clientWidth cv) * dpr))
      (match c with
       | ParticleField => trunc (of_Z (clientHeight cv) * dpr)
       | SoundWaves => trunc (of_Z wave_height * dpr)
       end) in
  logged (Resize k) (with_canvas w cv').

(** [raf = requestAnimationFrame(cb)] in the closure of run [k]. *)
Definition request_frame (k : nat) (cb : Callback) (w : World) : World :=
  let '(h, win) := requestAnimationFrame cb (window w) in
  mkWorld win (mounted w) (pos w) (effect_run w) (effect_deps w) (pending w)
          (<[k := h]> (raf w)) (dprs w) (canvas w) (particles w) (rng w) (log w).

(** [const loop = () => { raf = requestAnimationFrame(loop); ... }] of
    [ParticleField]; the drawing calls do not change this state. *)
Definition loop (k : nat) (mouse : Z * Z) (w : World) : World :=
  let w := request_frame k (Loop k mouse) w in
  let dpr := dpr_of k w in
  let mx := of_Z (fst mouse) * dpr in
  let my := of_Z (snd mouse) * dpr in
  let ps := map (update (of_Z (width (canvas w))) (of_Z (height (canvas w))) mx my)
                (particles w) in
  logged (Loop k mouse)
    (mkWorld (window w) (mounted w) (pos w) (effect_run w) (effect_deps w) (pending w)
             (raf w) (dprs w) (canvas w) ps (rng w) (log w)).

(** [const draw = () => { raf = requestAnimationFrame(draw); ... }] of
    [SoundWaves]; what it paints (and its time accumulator [t]) does not
    feed back into this state. *)
Definition draw (k : nat) (mouse : Z * Z) (w : World) : World :=
  logged (Draw k mouse) (request_frame k (Draw k mouse) w).

(** The body of the canvas effect, as its run number [k], in the closure
    of the render that computed [dpr] and read [mouse]. *)
Definition effect (c : Component) (k : nat) (dpr : A) (mouse : Z * Z) (w : World)
    : World :=
  let w := mkWorld (window w) (mounted w) (pos w) k (dpr, mouse) (pending w) (raf w)
                   (<[k := dpr]> (dprs w)) (canvas w) (particles w) (rng w) (log w) in
  let w := resize c k w in
  let w := with_window w (addEventListener resize_event (Resize k) (window w)) in
  match c with
  | ParticleField =>
      let ps := init_particles (canvas w) rand (rng w) in
      let w := mkWorld (window w) (mounted w) (pos w) (effect_run w)
                       (effect_deps w) (pending w) (raf w) (dprs w) (canvas w) ps
                       (rng w + 6 * particle_count (canvas w))%nat (log w) in
      loop k mouse w
  | SoundWaves => draw k mouse w
  end.

(** The function the canvas effect returns. *)
Definition cleanup (c : Component) (w : World) : World :=
  let k := effect_run w in
  let win := cancelAnimationFrame (raf w !! k) (window w) in
  match c with
  | ParticleField =>
      with_window w (removeEventListener resize_event (Resize k) win)
  | SoundWaves => with_window w win
  end.

(** [setPos({ x: e.clientX, y: e.clientY })]: the state is set, and React
    will render the component later. *)
Definition onMove (e : Z * Z) (w : World) : World :=
  mkWorld (window w) (mounted w) e (effect_run w) (effect_deps w) (pending w) (raf w)
          (dprs w) (canvas w) (particles w) (rng w) (log w).

(** React runs the canvas effect of the latest render, if it has still to
    run: the cleanup of the run before, then the effect, in the closure of
    that render. *)
Definition flush (c : Component) (w : World) : World :=
  match pending w with
  | Some (dpr, mouse) =>
      effect c (S (effect_run w)) dpr mouse (cleanup c (with_pending w None))
  | None => w
  end.

(** A render of the component.  React first runs the effects of the
    render before, if they have still to run.  Then [dpr] is computed
    from [window.devicePixelRatio], which is [ratio] at that moment, and
    [mouse] is read from [pos]; the canvas effect is to run again when one
    of [dpr], [mouse.x], [mouse.y] is not the same as in the render
    before. *)
Definition render (c : Component) (ratio : A) (w : World) : World :=
  let w := flush c w in
  let dpr := Math_min ratio (dec 2 0) in
  if decide ((dpr, pos w) = effect_deps w) then w
  else with_pending w (Some (dpr, pos w)).

Definition call (c : Component) (e : Z * Z) (cb : Callback) (w : World) : World :=
  match cb with
  | OnMove => onMove e (logged OnMove w)
  | Resize k => resize c k w
  | Loop k m => loop k m w
  | Draw k m => draw k m w
  end.

Definition fire (c : Component) (ty : EventType) (e : Z * Z) (w : World) : World :=
  fold_left (fun w l => if decide (fst l = ty) then call c e (snd l) w else w)
            (listeners (window w)) w.

(** What can happen to the page after the component is mounted.  The
    browser delivers a mouse move, a window resize or an animation frame.
    React unmounts the component: the effects that have still to run are
    run, then the cleanups, and the canvas leaves the document.  React
    renders the component, as it does some time after every [setPos] and
    whenever the page renders, while [window.devicePixelRatio] is
    [ratio]; some time after the render it runs the effects.  The layout
    of the page gives the canvas the CSS size [cw] x [ch]. *)
Inductive Event :=
| MouseMove (x y : Z)
| WindowResize
| AnimationFrame
| Unmount
| Render (ratio : A)
| Effects
| Layout (cw ch : Z).

(** A canvas out of the document has no layout box: its [clientWidth] and
    [clientHeight] read 0. *)
Definition detached (cv : Canvas) : Canvas := mkCanvas 0 0 (width cv) (height cv).

Definition step (c : Component) (w : World) (ev : Event) : World :=
  match ev with
  | MouseMove x y => fire c mousemove (x, y) w
  | WindowResize => fire c resize_event (0, 0) w
  | AnimationFrame =>
      let pending := frame_requests (window w) in
      let w := with_window w (mkWindow (listeners (window w)) nil
                                       (next_handle (window w))) in
      fold_left (fun w r => call c (0, 0) (snd r) w) pending w
  | Unmount =>
      if mounted w then
        let w := flush c w in
        let w := cleanup c w in
        let w := with_window w (removeEventListener mousemove OnMove (window w)) in
        mkWorld (window w) false (pos w) (effect_run w) (effect_deps w) (pending w)
                (raf w) (dprs w) (detached (canvas w)) (particles w) (rng w) (log w)
      else w
  | Render ratio => if mounted w then render c ratio w else w
  | Effects => if mounted w then flush c w else w
  | Layout cw ch =>
      if mounted w
      then with_canvas w (mkCanvas cw ch (width (canvas w)) (height (canvas w)))
      else w
  end.

(** The first render of the component on a page with canvas [cv], and
    its effects: the effect of [useCursor], then run 0 of the canvas
    effect. *)
Definition mount (c : Component) (cv : Canvas) : World :=
  let dpr := Math_min devicePixelRatio (dec 2 0) in
  let w := mkWorld (mkWindow nil nil 1%nat) true (0, 0) 0%nat (dpr, (0, 0)) None ∅ ∅ cv
                   nil 0%nat nil in
  let w := with_window w (addEventListener mousemove OnMove (window w)) in
  effect c 0%nat dpr (0, 0) w.

Definition run (c : Component) (w : World) (evs : list Event) : World :=
  fold_left (step c) evs w.

(** The events in which the component is neither rendered nor unmounted
    and [pos] is not set. *)
Definition no_move_or_render (ev : Event) : bool :=
  match ev with
  | MouseMove _ _ | Render _ | Unmount => false
  | _ => true
  end.

(** The events in which React does nothing: it neither renders or
    unmounts the component nor runs effects. *)
Definition no_effects (ev : Event) : bool :=
  match ev with
  | Render _ | Effects | Unmount => false
  | _ => true
  end.

End Lifecycle.

Arguments World A : clear implicits.
Arguments Event {A}.

Arguments count A {_} c.
Arguments particle_count A {_} c.

(** ** The lead form *)

Module LeadForm.
#[local] Open Scope string_scope.

(** The object held by [const [state, setState] = useState({...})]. *)
Record Fields := mkFields {
  name : string; email : string; phone : string;
  company : string; message : string
}.

Definition blank : Fields := mkFields "" "" "" "" "".

(** The three state cells of the component. *)
Record Form := mkForm {
  state : Fields;
  loading : bool;
  ok : option bool
}.

(** The JSON object of the request body: [source], [ts], [...state]. *)
Record Body := mkBody { source : string; ts : string; fields : Fields }.

Record Request := mkRequest {
  url : string; method : string; content_type : string; body : Body
}.

(** What [await fetch(...)] does: the promise resolves with a response,
    of which the code reads [ok] only, or it rejects. *)
Inductive FetchResult := Response (status : Z) | Rejected.

(** [res.ok]: the status is in the range 200-299. *)
Definition res_ok (status : Z) : bool :=
  ((200 <=? status) && (status <=? 299))%Z.

(** The handler runs over the form and the requests sent so far, and
    completes normally or by a throw. *)
Record Env := mkEnv { form : Form; requests : list Request }.

Inductive Completion (X : Type) := Normal (x : X) | Throw.
Arguments Normal {X} x.
Arguments Throw {X}.

Definition M (X : Type) : Type := Env -> Completion X * Env.

Definition ret {X} (x : X) : M X := fun e => (Normal x, e).

Definition bind {X Y} (m : M X) (f : X -> M Y) : M Y :=
  fun e => match m e with
           | (Normal x, e') => f x e'
           | (Throw, e') => (Throw, e')
           end.

Notation "x <- m ;; k" := (bind m (fun x => k))
  (at level 100, m at next level, right associativity).
Notation "m ;; k" := (bind m (fun _ => k))
  (at level 100, right associativity).

(** [try { b } catch (err) { c } finally { f }] *)
Definition try_catch_finally {X} (b c : M X) (f : M unit) : M X :=
  fun e =>
    let '(r, e) := b e in
    let '(r, e) := match r with
                   | Normal x => (Normal x, e)
                   | Throw => c e
                   end in
    let '(rf, e) := f e in
    match rf with
    | Normal _ => (r, e)
    | Throw => (Throw, e)
    end.

Definition setState (v : Fields) : M unit :=
  fun e => (Normal tt, mkEnv (mkForm v (loading (form e)) (ok (form e))) (requests e)).
Definition setLoading (v : bool) : M unit :=
  fun e => (Normal tt, mkEnv (mkForm (state (form e)) v (ok (form e))) (requests e)).
Definition setOk (v : option bool) : M unit :=
  fun e => (Normal tt, mkEnv (mkForm (state (form e)) (loading (form e)) v) (requests e)).

(** [await fetch(url, init)] against a network that answers [net]. *)
Definition fetch (net : Request -> FetchResult) (req : Request) : M Z :=
  fun e =>
    let e' := mkEnv (form e) (requests e ++ [req]) in
    match net req with
    | Response status => (Normal status, e')
    | Rejected => (Throw, e')
    end.

(** [const onSubmit = async (e) => { ... }]; [captured] is the [state] of
    the render the handler belongs to and [now] is
    [new Date().toISOString()]. *)
Definition onSubmit (webhook now : string) (net : Request -> FetchResult)
    (captured : Fields) : M unit :=
  setLoading true ;;
  setOk None ;;
  try_catch_finally
    (res <- fetch net (mkRequest webhook "POST" "application/json"
                         (mkBody "website" now captured)) ;;
     setOk (Some (res_ok res)) ;;
     setState blank)
    (setOk (Some false))
    (setLoading false).

(** A submission of the form as it stands. *)
Definition submit (webhook now : string) (net : Request -> FetchResult)
    (f : Form) : Completion unit * Env :=
  onSubmit webhook now net (state f) (mkEnv f nil).

(** The request the handler sends for form [f]. *)
Definition request_of (webhook now : string) (f : Form) : Request :=
  mkRequest webhook "POST" "application/json" (mkBody "website" now (state f)).

(** A filled-in form. *)
Definition filled : Form :=
  mkForm (mkFields "Ada" "ada@example.org" "" "" "A voice agent") false None.

Definition thanks : string := "Thanks — we\'ll be in touch shortly.".
Definition went_wrong : string := "Something went wrong — email hello@oceanside.ai".

(** The two conditional [<span>]s under the button. *)
Definition banners (f : Form) : list string :=
  (match ok f with Some true => [thanks] | _ => [] end) ++
  (match ok f with Some false => [went_wrong] | _ => [] end).

(** [contains s t]: [t] occurs in [s]. *)
Fixpoint contains (s t : string) : bool :=
  String.prefix t s ||
  match s with
  | EmptyString => false
  | String _ s' => contains s' t
  end.

End LeadForm.

(** ** The theme hook *)

Module Theme.
#[local] Open Scope string_scope.

(** The page as far as [useTheme] goes: the state cell [theme], the
    contents of [window.localStorage], and whether
    [document.documentElement] carries the class [dark]. *)
Record Page := mkPage {
  theme : string;
  localStorage : gmap string string;
  dark : bool
}.

Definition getItem (key : string) (ls : gmap string string) : option string :=
  ls !! key.

Definition setItem (key value : string) (ls : gmap string string) : gmap string string :=
  <[key := value]> ls.

(** The argument of [useState]: the stored value when it is truthy (a
    string that is not empty), ["dark"] otherwise. *)
Definition initial_theme (ls : gmap string string) : string :=
  match getItem "theme" ls with
  | Some s => if String.eqb s "" then "dark" else s
  | None => "dark"
  end.

(** The effect of [useTheme], run after the first render and after every
    render in which [theme] has changed. *)
Definition effect (p : Page) : Page :=
  if String.eqb (theme p) "" then p
  else mkPage (theme p) (setItem "theme" (theme p) (localStorage p))
              (String.eqb (theme p) "dark").

(** The first render of [useTheme] on a page loaded over storage [ls]:
    the state cell is initialized and the effect runs. *)
Definition useTheme (ls : gmap string string) : Page :=
  effect (mkPage (initial_theme ls) ls false).

(** [setTheme(t)]: no render, hence no effect, when [t] is the current
    value. *)
Definition setTheme (t : string) (p : Page) : Page :=
  if String.eqb t (theme p) then p
  else effect (mkPage t (localStorage p) (dark p)).

(** [onClick] of [ThemeToggle]. *)
Definition onClick (p : Page) : Page :=
  setTheme (if String.eqb (theme p) "dark" then "light" else "dark") p.

(** Reloading the page keeps the storage and nothing else. *)
Definition reload (p : Page) : Page := useTheme (localStorage p).

(** After its effect has run, the hook holds a theme that is not empty
    and the storage holds the same value. *)
Definition settled (p : Page) : Prop :=
  theme p <> "" /\ localStorage p !! "theme" = Some (theme p).

(** The page after [n] clicks on the toggle. *)
Fixpoint clicks (n : nat) (p : Page) : Page :=
  match n with
  | O => p
  | S n => clicks n (onClick p)
  end.

End Theme.

(** ** Reading the simulator over the real numbers *)

Module RealField.
#[local] Open Scope R_scope.

(** The quantities of one update, with the constants written out:
    [dist], [force], and the increment of a velocity component whose
    displacement from the pointer is [d]. *)
Definition Rdist (dx dy : R) : R := R_sqrt.sqrt (dx * dx + dy * dy) + 1 / 1000.
Definition Rforce (dist : R) : R := Rmin (30 / dist) (6 / 10).
Definition Raccel (d dist : R) : R := d / dist * Rforce dist * (2 / 100).

(** [v < lo || v > hi] *)
Definition outside (lo hi v : R) : bool := Rltb v lo || Rltb hi v.

End RealField.

(** ** Reflection, per axis *)

Module Reflection.
#[local] Open Scope R_scope.

Inductive Axis := AxisX | AxisY.

Definition coord (a : Axis) (p : Particle R) : R :=
  match a with AxisX => p_x p | AxisY => p_y p end.
Definition vel (a : Axis) (p : Particle R) : R :=
  match a with AxisX => p_vx p | AxisY => p_vy p end.
Definition along (a : Axis) (x y : R) : R :=
  match a with AxisX => x | AxisY => y end.

(** At the boundary 0 moving to the negative side, or at the boundary
    [hi] moving to the positive side. *)
Definition at_boundary_outward (hi pos v : R) : Prop :=
  (pos = 0 /\ v < 0) \/ (pos = hi /\ 0 < v).

(** A point on the left edge of a 100 x 100 canvas, creeping outward,
    with the pointer 10 to its right at the same height. *)
Definition creeping : Particle R := mkParticle 0 50 (- (1 / 10000)) 0 1 1.

(** A point at rest, with the pointer 3000 to its right. *)
Definition resting : Particle R := mkParticle 0 1000 0 0 1 1.

(** A moving point 1000 away from a pointer at the origin. *)
Definition distant : Particle R := mkParticle 600 800 1 (-1) 1 1.

(** A point on the left edge moving outward at the largest initial
    speed, the pointer in the middle of the canvas. *)
Definition leaving : Particle R := mkParticle 0 50 (- (2 / 10)) 0 1 1.

(** A point just inside the left edge with the same velocity. *)
Definition grazing : Particle R := mkParticle (1 / 1000) 50 (- (2 / 10)) 0 1 1.

(** A point on the right edge of a 100 x 100 canvas moving outward, with
    the pointer 1 beyond the edge at the same height: the repulsion of
    the frame is exactly the opposite of its velocity. *)
Definition cancelled : Particle R := mkParticle 100 50 (12 / 1001) 0 1 1.

(** A point on a canvas of width 0 moving to the right, with the pointer
    10 to its right. *)
Definition squeezed : Particle R := mkParticle 0 50 (1 / 1000) 0 1 1.

End Reflection.

(** ** Concrete runs in binary64 *)

Module Binary64.
#[local] Open Scope float_scope.

(** The points [Reflection.grazing], [Reflection.creeping] and
    [Reflection.resting] as the browser holds them. *)
Definition grazing : Particle float := mkParticle 0.001 50 (-0.2) 0 1 1.
Definition creeping : Particle float := mkParticle 0 50 (-0.0001) 0 1 1.
Definition resting : Particle float := mkParticle 0 1000 0 0 1 1.

(** A point on the right edge of a 100 x 100 canvas with the outward
    velocity 1e-15, the pointer being on the point. *)
Definition faint : Particle float := mkParticle 100 50 1e-15 0 1 1.

(** [x < lo || x > hi] on the result of a run. *)
Definition outside (lo hi x : float) : bool :=
  PrimFloat.ltb x lo || PrimFloat.ltb hi x.

End Binary64.

(** ** States of a mounted [ParticleField] *)

Section Running.
Context {A : Type} `{Number A}.
#[local] Open Scope num_scope.

(** The canvas after [resize()]. *)
Definition resized (dpr : A) (wave_height : Z) (c : Component) (cv : Canvas) : Canvas :=
  mkCanvas (clientWidth cv) (clientHeight cv)
    (trunc (of_Z (clientWidth cv) * dpr))
    (match c with
     | ParticleField => trunc (of_Z (clientHeight cv) * dpr)
     | SoundWaves => trunc (of_Z wave_height * dpr)
     end).

(** The particles a run of the [ParticleField] effect leaves: a new
    array, filled from the random numbers not drawn before, and moved
    once by the first call of [loop]. *)
Definition restarted (dpr : A) (rand : nat -> A) (cv : Canvas) (mouse : Z * Z) (i : nat)
    : list (Particle A) :=
  map (update (of_Z (width cv)) (of_Z (height cv))
              (of_Z (fst mouse) * dpr) (of_Z (snd mouse) * dpr))
      (init_particles cv rand i).

(** While [ParticleField] is mounted, the browser holds its two
    listeners and one frame request, for the [loop] of the latest run of
    the effect, which has captured the pointer and the [dpr] of that
    run's dependencies and whose handle is in that run's [raf]. *)
Definition running (w : World A) : Prop :=
  mounted w = true /\
  exists h : nat,
    raf w !! effect_run w = Some h /\
    dprs w !! effect_run w = Some (fst (effect_deps w)) /\
    window w = mkWindow [(mousemove, OnMove); (resize_event, Resize (effect_run w))]
                        [(h, Loop (effect_run w) (snd (effect_deps w)))] (S h).

(** After the unmount the browser holds nothing of the component. *)
Definition stopped (w : World A) : Prop :=
  mounted w = false /\ listeners (window w) = [] /\ frame_requests (window w) = [].

End Running.

(** ** Sample pages *)

Module Samples.

(** A 1800 x 1000 canvas (CSS pixels) on a display with
    [devicePixelRatio] 2, before the first [resize()]. *)
Definition retina : Canvas := mkCanvas 1800 1000 0 0.

(** The same canvas once sized: a drawing surface of 3600 x 2000 device
    pixels. *)
Definition retina_sized : Canvas := mkCanvas 1800 1000 3600 2000.

(** A generator that always answers one half. *)
Definition half : nat -> R := fun _ => (1 / 2)%R.

End Samples.


(** ** States of a mounted [SoundWaves] *)

Section Waving.
Context {A : Type} `{Number A}.

(** The resize listeners of the effect runs 0, ..., [k - 1]. *)
Definition resize_listeners (k : nat) : list (EventType * Callback) :=
  map (fun j => (resize_event, Resize j)) (seq 0 k).

(** While [SoundWaves] is mounted the browser holds its mouse listener,
    one frame request for the [draw] of the latest run, and the resize
    listener of every run so far. *)
Definition waving (w : World A) : Prop :=
  mounted w = true /\
  exists h : nat,
    raf w !! effect_run w = Some h /\
    window w = mkWindow ((mousemove, OnMove) :: resize_listeners (S (effect_run w)))
                        [(h, Draw (effect_run w) (snd (effect_deps w)))] (S h).

(** After the unmount the resize listeners are still there. *)
Definition waved (w : World A) : Prop :=
  mounted w = false /\
  listeners (window w) = resize_listeners (S (effect_run w)) /\
  frame_requests (window w) = [].

End Waving.

(** ** The inputs of the lead form *)

Module LeadInputs.
Import LeadForm.
#[local] Open Scope string_scope.

(** The five inputs, in the order they are rendered. *)
Inductive Field := Name | Email | Company | Phone | Message.

#[export] Instance Field_eq_dec : EqDecision Field.
Proof. solve_decision. Defined.

(** [state.name], [state.email], ... *)
Definition get (fld : Field) (s : Fields) : string :=
  match fld with
  | Name => name s | Email => email s | Company => company s
  | Phone => phone s | Message => message s
  end.

(** [{ ...state, name: v }], [{ ...state, email: v }], ... *)
Definition spread_with (fld : Field) (v : string) (s : Fields) : Fields :=
  match fld with
  | Name => mkFields v (email s) (phone s) (company s) (message s)
  | Email => mkFields (name s) v (phone s) (company s) (message s)
  | Company => mkFields (name s) (email s) (phone s) v (message s)
  | Phone => mkFields (name s) (email s) v (company s) (message s)
  | Message => mkFields (name s) (email s) (phone s) (company s) v
  end.

(** [onChange] of the input [fld], the user having typed [v]. *)
Definition onChange (fld : Field) (v : string) (f : Form) : Form :=
  mkForm (spread_with fld v (state f)) (loading f) (ok f).

(** A series of changes, each rendered before the next. *)
Definition typing (edits : list (Field * string)) (f : Form) : Form :=
  fold_left (fun f e => onChange (fst e) (snd e) f) edits f.

(** The values typed into [fld], oldest first. *)
Definition typed_into (fld : Field) (edits : list (Field * string)) : list string :=
  map snd (filter (fun e => fst e = fld) edits).

(** The button under the inputs: whether it is disabled, and its label. *)
Definition button (f : Form) : bool * string :=
  (loading f, if loading f then "Sending" else "Submit request").

End LeadInputs.

(** ** The theme toggle button *)

Module ThemeToggle.
Import Theme.
#[local] Open Scope string_scope.

(** The text of the button: [{theme === "dark" ? "Light" : "Dark"} mode]. *)
Definition label (theme : string) : string :=
  (if String.eqb theme "dark" then "Light" else "Dark") ++ " mode".

(** A page is in step when the class on the document, the stored value
    and the state cell agree. *)
Definition in_step (p : Page) : Prop :=
  theme p <> "" /\
  localStorage p !! "theme" = Some (theme p) /\
  dark p = String.eqb (theme p) "dark".

End ThemeToggle.

(** ** The navigation bar *)

Module Nav.
#[local] Open Scope string_scope.

(** What [document.querySelector(href)] does: it returns an element, or
    [null], or throws on a string that is not a selector. *)
Inductive Query := Found (element : string) | NotFound | SyntaxError.

(** The page as far as [Nav] goes: whether the mobile menu is open, the
    element last scrolled to, and the address shown. *)
Record Page := mkPage {
  open : bool;
  scrolled_to : option string;
  address : string
}.

(** How a click handler ends: whether it called [e.preventDefault()] and
    whether it threw. *)
Record Handled := mkHandled {
  default_prevented : bool;
  threw : bool;
  page : Page
}.

(** [v || d] for an attribute value [v] that may be [null]. *)
Definition or_default (v : option string) (d : string) : string :=
  match v with
  | Some s => if String.eqb s "" then d else s
  | None => d
  end.

(** [const onClick = (e) => { ... }] of the hash links; [query] is the
    document's [querySelector], [replaces href] tells whether
    [history.replaceState(null, '', href)] succeeds (it may throw), and
    [href] is [e.currentTarget.getAttribute('href')]. *)
Definition onClick (query : string -> Query) (replaces : string -> bool)
    (href : option string) (p : Page) : Handled :=
  match href with
  | None => mkHandled false false p
  | Some h =>
      if String.eqb h "" || String.eqb h "#" then mkHandled false false p
      else
        match query h with
        | SyntaxError => mkHandled false true p
        | NotFound => mkHandled false false p
        | Found target =>
            mkHandled true false
              (mkPage false (Some target)
                      (if replaces h then h else address p))
        end
  end.

(** What the user and the browser do to the bar; [LinkClicked href] is a
    click on an anchor that carries [onClick]. *)
Inductive Event :=
| ToggleMenu
| WindowResized
| LinkClicked (href : option string).

(** [setOpen((v) => !v)], [close], and [onClick]. *)
Definition step (query : string -> Query) (replaces : string -> bool)
    (p : Page) (ev : Event) : Page :=
  match ev with
  | ToggleMenu => mkPage (negb (open p)) (scrolled_to p) (address p)
  | WindowResized => mkPage false (scrolled_to p) (address p)
  | LinkClicked href => page (onClick query replaces href p)
  end.

Definition run (query : string -> Query) (replaces : string -> bool)
    (p : Page) (evs : list Event) : Page :=
  fold_left (step query replaces) evs p.

(** An event after which the menu is closed whatever it was. *)
Definition closes (query : string -> Query) (ev : Event) : bool :=
  match ev with
  | ToggleMenu => false
  | WindowResized => true
  | LinkClicked (Some h) =>
      negb (String.eqb h "" || String.eqb h "#") &&
      match query h with Found _ => true | _ => false end
  | LinkClicked None => false
  end.

Definition is_toggle (ev : Event) : bool :=
  match ev with ToggleMenu => true | _ => false end.

(** An anchor element as far as the effect goes: its content attributes
    other than [style], the declarations of its inline style (what
    [a.style] reads and writes), and whether [onClick] is among its click
    listeners. *)
Record Element := mkElement {
  attributes : gmap string string;
  style : gmap string string;
  listens : bool
}.

Definition getAttribute (key : string) (a : Element) : option string :=
  attributes a !! key.

Definition setAttribute (key value : string) (a : Element) : Element :=
  mkElement (<[key := value]> (attributes a)) (style a) (listens a).

(** The body of [anchors.forEach((a) => ...)], statement by statement:
    [a.style.pointerEvents = 'auto'] sets the declaration
    [pointer-events] of the inline style, the listener is added, and
    [role] and [tabindex] get a default when they have no value. *)
Definition prepare (a : Element) : Element :=
  let a := mkElement (attributes a) (<["pointer-events" := "auto"]> (style a))
                     (listens a) in
  let a := mkElement (attributes a) (style a) true in
  let a := setAttribute "role" (or_default (getAttribute "role" a) "link") a in
  let a := setAttribute "tabindex" (or_default (getAttribute "tabindex" a) "0") a in
  a.

End Nav.

(** ** The list of questions *)

Module FAQ.

(** The rows [COMPANY.faqs.map((f, i) => ...)] renders: the question, the
    answer, and whether the row ends with a divider,
    [i < COMPANY.faqs.length - 1]. *)
Fixpoint rows_from (len : Z) (i : Z) (faqs : list (string * string))
    : list (string * string * bool) :=
  match faqs with
  | [] => []
  | f :: faqs => (fst f, snd f, i <? len - 1) :: rows_from len (i + 1) faqs
  end.

Definition rows (faqs : list (string * string)) : list (string * string * bool) :=
  rows_from (Z.of_nat (length faqs)) 0 faqs.

Definition dividers (faqs : list (string * string)) : nat :=
  length (filter (fun r => snd r = true) (rows faqs)).

End FAQ.

(** ** The curves of [SoundWaves] *)

Module Waves.
#[local] Open Scope R_scope.

(** The quantities [draw] computes for layer [i] (0 to 4) at abscissa [x]
    and time [t], over the reals: [f], [amp], [mouseInfluence] and [y]. *)
Definition f (i : nat) : R := 2 / 1000 + INR i * (6 / 10000).

Definition amp (i : nat) (t : R) : R :=
  (30 + INR i * 10) + sin (t * (12 / 10 + INR i * (2 / 10))) * 10.

Definition mouseInfluence (mx x W : R) : R := 9 / 10000 * ((mx - x) / W).

Definition y (i : nat) (x t mx my W Hh : R) : R :=
  Hh / 2 + sin (x * f i + t * (1 + INR i * (15 / 100))
                + mouseInfluence mx x W * (my - Hh / 2)) * amp i t.

(** [for (let x = 0; x < canvas.width; x += 6)]: the abscissas visited,
    the loop being cut off after [fuel] rounds. *)
Fixpoint xs_loop (fuel : nat) (x W : Z) : list Z :=
  match fuel with
  | O => []
  | S fuel => if (x <? W)%Z then x :: xs_loop fuel (x + 6)%Z W else []
  end.

(** The loop on a canvas of width [W]; it ends within [W] rounds. *)
Definition xs (W : Z) : list Z := xs_loop (Z.to_nat W) 0 W.

(** [if (x === 0) ctx.moveTo(x, y); else ctx.lineTo(x, y);] *)
Inductive Command := moveTo (x : Z) | lineTo (x : Z).

Definition path (W : Z) : list Command :=
  map (fun x => if (x =? 0)%Z then moveTo x else lineTo x) (xs W).

End Waves.

(** ** The hash links of the page *)

Module Links.
Import Stdlib.Strings.Ascii Nav.
#[local] Open Scope string_scope.

(** Where an anchor with a hash [href] is rendered. *)
Inductive Place := Logo | Bar | Drawer | Body | Footer.

#[export] Instance Place_eq_dec : EqDecision Place.
Proof. solve_decision. Defined.

Record Anchor := mkAnchor { place : Place; href : string }.

#[export] Instance Anchor_eq_dec : EqDecision Anchor.
Proof. solve_decision. Defined.

(** [const links = [...]] of [Nav]. *)
Definition links : list string :=
  ["#services"; "#work"; "#mission"; "#about"; "#integrations"; "#pricing"; "#faq";
   "#contact"].

(** The [id]s of the [Section]s of the page. *)
Definition ids : list string :=
  ["home"; "services"; "work"; "mission"; "about"; "integrations"; "pricing"; "faq";
   "contact"].

(** The anchors with a hash [href] in the document, in document order,
    when the mobile menu is [open] or not: the logo, the links of the bar,
    the links of the drawer (rendered only while the menu is open), the
    calls to action of the hero, the case studies and the three pricing
    tiers, and the two links of the footer. *)
Definition rendered (open : bool) : list Anchor :=
  mkAnchor Logo "#home" :: map (mkAnchor Bar) links
  ++ (if open then map (mkAnchor Drawer) links else [])
  ++ [mkAnchor Body "#contact"; mkAnchor Body "#contact"; mkAnchor Body "#contact";
      mkAnchor Body "#contact"; mkAnchor Body "#contact"]
  ++ [mkAnchor Footer "#privacy"; mkAnchor Footer "#terms"].

(** [Array.from(document.querySelectorAll('a[href^="#"]'))] in the effect
    of [Nav], which runs once, after the first render, when the menu is
    closed: the anchors that get the click handler. *)
Definition anchors : list Anchor := rendered false.

(** [document.querySelector(h)] on this page, for the selectors ["#id"]
    its links use. *)
Definition querySelector (h : string) : Query :=
  match h with
  | String "#"%char id => if decide (id ∈ ids) then Found id else NotFound
  | _ => NotFound
  end.

(** A click on anchor [a]: the handler runs when the anchor carries it. *)
Definition click (replaces : string -> bool) (a : Anchor) (p : Page) : Handled :=
  if decide (a ∈ anchors) then onClick querySelector replaces (Some (href a)) p
  else mkHandled false false p.

End Links.

(** ** The service cards *)

Module Cards.
#[local] Open Scope string_scope.
#[local] Open Scope list_scope.

(** The listeners on a card: those the effect of [OceansideSite] adds for
    node [i], and any other. *)
Inductive Handler := onActivate (node : nat) | onKey (node : nat) | Other (name : string).

#[export] Instance Handler_eq_dec : EqDecision Handler.
Proof. solve_decision. Defined.

(** An element matched by ['#services .group']: its attributes, its
    listeners, and its property [__oceanside_cleanup]. *)
Record Card := mkCard {
  attrs : gmap string string;
  handlers : list (string * Handler);
  slot : option (Handler * Handler)
}.

Definition addEventListener (ty : string) (h : Handler) (l : list (string * Handler))
    : list (string * Handler) :=
  if decide ((ty, h) ∈ l) then l else l ++ [(ty, h)].

Definition removeEventListener (ty : string) (h : Handler) (l : list (string * Handler))
    : list (string * Handler) :=
  filter (fun e => e <> (ty, h)) l.

(** The body of [nodes.forEach((el) => { try { ... } catch (err) {} })] for
    the node at index [i]. *)
Definition setup (i : nat) (el : Card) : Card :=
  mkCard (<["tabindex" := "0"]> (<["role" := "button"]> (attrs el)))
         (addEventListener "keydown" (onKey i)
            (addEventListener "click" (onActivate i) (handlers el)))
         (Some (onActivate i, onKey i)).

(** The body of the [forEach] of the cleanup. *)
Definition teardown (el : Card) : Card :=
  match slot el with
  | Some (a, k) =>
      mkCard (attrs el)
             (removeEventListener "keydown" k
                (removeEventListener "click" a (handlers el)))
             None
  | None => el
  end.

(** The effect over the nodes, and the function it returns. *)
Definition effect (nodes : list Card) : list Card := imap setup nodes.
Definition cleanup (nodes : list Card) : list Card := map teardown nodes.

(** What a listener does with [window.location.hash] on an event with key
    [key] (for a click the key plays no part), and whether it calls
    [e.preventDefault()]: [onActivate] sets the hash, [onKey] does so for
    Enter and Space only. *)
Definition handle (h : Handler) (key : string) (hash : string) : bool * string :=
  match h with
  | onActivate _ => (false, "#contact")
  | onKey _ =>
      if String.eqb key "Enter" || String.eqb key " " then (true, "#contact")
      else (false, hash)
  | Other _ => (false, hash)
  end.

(** A card that carries none of the effect's listeners yet. *)
Definition untouched (el : Card) : Prop :=
  slot el = None /\ Forall (fun e => exists name, snd e = Other name) (handlers el).

End Cards.
(** * Properties *)

(** ** One update of a particle *)

Section Steps.
Context {A : Type} `{Number A}.
#[local] Open Scope num_scope.

(** The in-place assignments of [update], read off as one record. *)
Lemma update_eq (W Hh mx my : A) (p : Particle A) :
  update W Hh mx my p =
  let dx := p_x p - mx in
  let dy := p_y p - my in
  let dist := Math_sqrt (dx * dx + dy * dy) + dec 1 3 in
  let force := Math_min (dec 30 0 / dist) (dec 6 1) in
  let vx1 := p_vx p + (dx / dist) * force * dec 2 2 in
  let vy1 := p_vy p + (dy / dist) * force * dec 2 2 in
  let x1 := p_x p + vx1 in
  let y1 := p_y p + vy1 in
  mkParticle x1 y1
    (if (x1 <? dec 0 0) || (W <? x1)
     then vx1 * dec 98 2 * dec (-1) 0 else vx1 * dec 98 2)
    (if (y1 <? dec 0 0) || (Hh <? y1)
     then vy1 * dec 98 2 * dec (-1) 0 else vy1 * dec 98 2)
    (p_r p) (p_o p).
Proof.
  destruct p as [x y vx vy r o].
  cbv beta iota zeta delta [p_x p_y p_vx p_vy p_r p_o].
  match goal with
  | |- _ = {| p_vx := if ?cx then _ else _; p_vy := if ?cy then _ else _ |} =>
      unfold update;
      cbv beta iota zeta delta [set_x set_y set_vx set_vy p_x p_y p_vx p_vy p_r p_o];
      destruct cx; cbv beta iota; destruct cy; reflexivity
  end.
Qed.
End Steps.

Module RealFacts.
Import RealField.
#[local] Open Scope R_scope.

Lemma Rltb_true a b : Rltb a b = true <-> a < b.
Proof. unfold Rltb; destruct (Rlt_dec a b); split; intros; try easy; lra. Qed.

Lemma Rltb_false a b : Rltb a b = false <-> b <= a.
Proof. unfold Rltb; destruct (Rlt_dec a b); split; intros; try easy; lra. Qed.

Lemma outside_true lo hi v : outside lo hi v = true <-> v < lo \/ hi < v.
Proof.
  unfold outside. rewrite orb_true_iff, !Rltb_true. reflexivity.
Qed.

Lemma outside_false lo hi v : outside lo hi v = false <-> lo <= v <= hi.
Proof.
  unfold outside. rewrite orb_false_iff, !Rltb_false. reflexivity.
Qed.

(** One update over the reals, in the names used below. *)
Lemma update_R W Hh mx my p :
  let dist := Rdist (p_x p - mx) (p_y p - my) in
  let ax := Raccel (p_x p - mx) dist in
  let ay := Raccel (p_y p - my) dist in
  let x' := p_x p + (p_vx p + ax) in
  let y' := p_y p + (p_vy p + ay) in
  update W Hh mx my p =
  mkParticle x' y'
    (if outside 0 W x' then - (98 / 100 * (p_vx p + ax)) else 98 / 100 * (p_vx p + ax))
    (if outside 0 Hh y' then - (98 / 100 * (p_vy p + ay)) else 98 / 100 * (p_vy p + ay))
    (p_r p) (p_o p).
Proof.
  cbv zeta. rewrite update_eq. cbv zeta.
  change (@dec R _ 1 3) with (1 / 1000); change (@dec R _ 30 0) with 30;
  change (@dec R _ 6 1) with (6 / 10); change (@dec R _ 2 2) with (2 / 100);
  change (@dec R _ 98 2) with (98 / 100); change (@dec R _ 0 0) with 0;
  change (@dec R _ (-1) 0) with (-1).
  cbn [num_add num_sub num_mul num_div Math_sqrt Math_min num_lt R_number].
  unfold outside, Raccel, Rforce, Rdist.
  f_equal; match goal with |- context [if ?b then _ else _] => destruct b end; ring.
Qed.

(** C1.  One simulator update of a point [p] with the pointer at
    [(mx, my)] computes [dx = p.x - mx], [dy = p.y - my],
    [dist = sqrt(dx^2 + dy^2) + 0.001], [force = min(30/dist, 0.6)], adds
    [(dx/dist)*force*0.02] and [(dy/dist)*force*0.02] to the velocity,
    adds the new velocity to the position, multiplies the velocity by
    0.98, and then negates a velocity component when the new coordinate
    lies outside [0, width] (resp. [0, height]); the position is the
    integrated one, not clamped, and radius and opacity are untouched. *)
Theorem update_steps (W Hh mx my : R) (p : Particle R) :
  let dx := p_x p - mx in
  let dy := p_y p - my in
  let dist := R_sqrt.sqrt (dx * dx + dy * dy) + 1 / 1000 in
  let force := Rmin (30 / dist) (6 / 10) in
  let vx1 := p_vx p + dx / dist * force * (2 / 100) in
  let vy1 := p_vy p + dy / dist * force * (2 / 100) in
  let x1 := p_x p + vx1 in
  let y1 := p_y p + vy1 in
  let vx2 := vx1 * (98 / 100) in
  let vy2 := vy1 * (98 / 100) in
  update W Hh mx my p =
  mkParticle x1 y1
    (if outside 0 W x1 then - vx2 else vx2)
    (if outside 0 Hh y1 then - vy2 else vy2)
    (p_r p) (p_o p).
Proof.
  cbv zeta. rewrite update_R. unfold Raccel, Rforce, Rdist.
  f_equal; match goal with |- context [if ?b then _ else _] => destruct b end; ring.
Qed.

(** *** Bounds on the repulsion *)

Lemma Rdist_ge dx dy : 1 / 1000 <= Rdist dx dy.
Proof. unfold Rdist. pose proof (sqrt_pos (dx * dx + dy * dy)). lra. Qed.

Lemma Rdist_pos dx dy : 0 < Rdist dx dy.
Proof. pose proof (Rdist_ge dx dy). lra. Qed.

Lemma abs_lt_dist_l dx dy : Rabs dx < Rdist dx dy.
Proof.
  unfold Rdist. rewrite <- sqrt_Rsqr_abs.
  assert (R_sqrt.sqrt (Rsqr dx) <= R_sqrt.sqrt (dx * dx + dy * dy)).
  { apply sqrt_le_1_alt. unfold Rsqr. nra. }
  lra.
Qed.

Lemma abs_lt_dist_r dx dy : Rabs dy < Rdist dx dy.
Proof.
  unfold Rdist. rewrite <- sqrt_Rsqr_abs.
  assert (R_sqrt.sqrt (Rsqr dy) <= R_sqrt.sqrt (dx * dx + dy * dy)).
  { apply sqrt_le_1_alt. unfold Rsqr. nra. }
  lra.
Qed.

Lemma Rforce_bounds d : 0 < d -> 0 < Rforce d <= 6 / 10 /\ Rforce d <= 30 / d.
Proof.
  intros Hd. unfold Rforce.
  assert (0 < 30 / d) by (apply Rdiv_lt_0_compat; lra).
  pose proof (Rmin_l (30 / d) (6 / 10)). pose proof (Rmin_r (30 / d) (6 / 10)).
  assert (0 < Rmin (30 / d) (6 / 10)) by (apply Rmin_glb_lt; lra).
  lra.
Qed.

(** The increment of a velocity component has the sign of the
    displacement, is below 0.012 in size, and is at most [0.6 / dist]. *)
Lemma Raccel_abs d dist :
  0 < dist -> Rabs d < dist ->
  Rabs (Raccel d dist) < 12 / 1000 /\ Rabs (Raccel d dist) <= 6 / 10 / dist.
Proof.
  intros Hd Hlt. destruct (Rforce_bounds dist Hd) as [[Hf0 Hf1] Hf2].
  unfold Raccel.
  assert (Hq : Rabs (d / dist) < 1).
  { unfold Rdiv. rewrite Rabs_mult, (Rabs_pos_eq (/ dist)).
    - apply (Rmult_lt_reg_r dist); [assumption|]. field_simplify; lra.
    - left. apply Rinv_0_lt_compat. assumption. }
  pose proof (Rabs_pos (d / dist)) as Hq0.
  rewrite !Rabs_mult, (Rabs_pos_eq (Rforce dist)), (Rabs_pos_eq (2 / 100)) by lra.
  assert (Hinv : 30 / dist * (2 / 100) = 6 / 10 / dist) by (field; lra).
  assert (0 < 30 / dist) by (apply Rdiv_lt_0_compat; lra).
  split; nra.
Qed.

Lemma Raccel_sign d dist :
  0 < dist ->
  (0 <= d -> 0 <= Raccel d dist) /\ (d <= 0 -> Raccel d dist <= 0) /\
  (d < 0 -> Raccel d dist < 0) /\ (0 < d -> 0 < Raccel d dist).
Proof.
  intros Hd. destruct (Rforce_bounds dist Hd) as [[Hf0 _] _].
  assert (Hi : 0 < / dist) by (apply Rinv_0_lt_compat; assumption).
  unfold Raccel, Rdiv.
  assert (Hk : 0 < / dist * Rforce dist * (2 * / 100)) by (repeat apply Rmult_lt_0_compat; lra).
  replace (d * / dist * Rforce dist * (2 * / 100))
    with (d * (/ dist * Rforce dist * (2 * / 100))) by ring.
  repeat split; intros; nra.
Qed.
End RealFacts.

Module VelocityFacts.
Import RealField RealFacts Reflection.
#[local] Open Scope R_scope.

Lemma frames_S {A} `{Number A} n (W Hh mx my : A) p :
  frames (S n) W Hh mx my p = update W Hh mx my (frames n W Hh mx my p).
Proof.
  revert p. induction n as [|n IH]; intros p; [reflexivity|].
  change (frames (S (S n)) W Hh mx my p) with (frames (S n) W Hh mx my (update W Hh mx my p)).
  rewrite IH. reflexivity.
Qed.

Lemma update_vx_abs W Hh mx my p :
  Rabs (p_vx (update W Hh mx my p)) =
  98 / 100 * Rabs (p_vx p + Raccel (p_x p - mx) (Rdist (p_x p - mx) (p_y p - my))).
Proof.
  rewrite update_R; cbn [p_vx].
  destruct (outside _ _ _); [rewrite Rabs_Ropp|]; rewrite Rabs_mult, (Rabs_pos_eq (98 / 100)); lra.
Qed.

Lemma update_vy_abs W Hh mx my p :
  Rabs (p_vy (update W Hh mx my p)) =
  98 / 100 * Rabs (p_vy p + Raccel (p_y p - my) (Rdist (p_x p - mx) (p_y p - my))).
Proof.
  rewrite update_R; cbn [p_vy].
  destruct (outside _ _ _); [rewrite Rabs_Ropp|]; rewrite Rabs_mult, (Rabs_pos_eq (98 / 100)); lra.
Qed.

(** One update shrinks a speed by the factor 0.98 after adding the
    repulsion, which is below 0.012 and at most [0.6 / dist]. *)
Lemma update_speed W Hh mx my p :
  let dist := Rdist (p_x p - mx) (p_y p - my) in
  Rabs (p_vx (update W Hh mx my p)) <= 98 / 100 * (Rabs (p_vx p) + 6 / 10 / dist) /\
  Rabs (p_vy (update W Hh mx my p)) <= 98 / 100 * (Rabs (p_vy p) + 6 / 10 / dist) /\
  Rabs (p_vx (update W Hh mx my p)) <= 98 / 100 * (Rabs (p_vx p) + 12 / 1000) /\
  Rabs (p_vy (update W Hh mx my p)) <= 98 / 100 * (Rabs (p_vy p) + 12 / 1000).
Proof.
  intros dist. rewrite update_vx_abs, update_vy_abs. fold dist.
  pose proof (Rdist_pos (p_x p - mx) (p_y p - my)) as Hd.
  destruct (Raccel_abs _ _ Hd (abs_lt_dist_l (p_x p - mx) (p_y p - my))) as [Hx1 Hx2].
  destruct (Raccel_abs _ _ Hd (abs_lt_dist_r (p_x p - mx) (p_y p - my))) as [Hy1 Hy2].
  fold dist in Hx1, Hx2, Hy1, Hy2.
  pose proof (Rabs_triang (p_vx p) (Raccel (p_x p - mx) dist)).
  pose proof (Rabs_triang (p_vy p) (Raccel (p_y p - my) dist)).
  repeat split; lra.
Qed.

(** Whatever the pointer does, a speed bound of at least 0.588 is kept by
    every update, hence for every number of frames. *)
Lemma velocity_bounded (B : R) n W Hh mx my p :
  588 / 1000 <= B ->
  Rabs (p_vx p) <= B -> Rabs (p_vy p) <= B ->
  Rabs (p_vx (frames n W Hh mx my p)) <= B /\
  Rabs (p_vy (frames n W Hh mx my p)) <= B.
Proof.
  intros HB. revert p. induction n as [|n IH]; intros p Hx Hy; [cbn; split; assumption|].
  cbn [frames]. destruct (update_speed W Hh mx my p) as (_ & _ & H1 & H2).
  apply IH; lra.
Qed.

(** C7 (as amended).  With the pointer held fixed at a distance of at
    least [D] from the point during [n] frames, each velocity component
    is bounded by its initial size decayed geometrically with ratio 0.98
    per frame, plus a residual [29.4 / D] left by the repulsion, which
    never vanishes but shrinks as the pointer is farther away. *)
Theorem damping_far_pointer (n : nat) (W Hh mx my D : R) (p : Particle R) :
  0 < D ->
  (forall k, (k < n)%nat ->
     let q := frames k W Hh mx my p in
     D <= Rdist (p_x q - mx) (p_y q - my)) ->
  Rabs (p_vx (frames n W Hh mx my p)) <= (98 / 100) ^ n * Rabs (p_vx p) + 294 / 10 / D /\
  Rabs (p_vy (frames n W Hh mx my p)) <= (98 / 100) ^ n * Rabs (p_vy p) + 294 / 10 / D.
Proof.
  intros HD. induction n as [|n IH]; intros Hfar.
  - cbn [frames pow]. assert (0 < 294 / 10 / D) by (apply Rdiv_lt_0_compat; lra). lra.
  - destruct IH as [IHx IHy]; [intros k Hk; apply Hfar; lia|].
    rewrite frames_S. set (q := frames n W Hh mx my p) in *.
    destruct (update_speed W Hh mx my q) as (Hx & Hy & _ & _).
    assert (Hq : D <= Rdist (p_x q - mx) (p_y q - my)) by (apply (Hfar n); lia).
    set (d := Rdist (p_x q - mx) (p_y q - my)) in *.
    assert (Hle : 6 / 10 / d <= 6 / 10 / D).
    { unfold Rdiv. apply Rmult_le_compat_l; [lra|]. apply Rinv_le_contravar; assumption. }
    assert (He : 98 / 100 * (294 / 10 / D + 6 / 10 / D) = 294 / 10 / D) by (field; lra).
    cbn [pow]. split; nra.
Qed.

Lemma damping_far_pointer_witness :
  Rabs (p_vx (frames 1 2000 2000 0 0 distant))
    <= (98 / 100) ^ 1 * Rabs (p_vx distant) + 294 / 10 / 1000 /\
  Rabs (p_vy (frames 1 2000 2000 0 0 distant))
    <= (98 / 100) ^ 1 * Rabs (p_vy distant) + 294 / 10 / 1000.
Proof.
  apply (damping_far_pointer 1 2000 2000 0 0 1000 distant); [lra|].
  intros k Hk. assert (k = 0%nat) as -> by lia. cbn [frames distant p_x p_y]. unfold Rdist.
  replace ((600 - 0) * (600 - 0) + (800 - 0) * (800 - 0)) with (1000 * 1000) by lra.
  rewrite sqrt_square; lra.
Defined.

(** C7, counterexample.  The pointer is 3000 away from the point and held
    fixed; the point is at rest.  One update leaves it moving: its speed
    has grown from zero instead of decaying by the factor 0.98. *)
Lemma no_decay_from_rest :
  3000 <= Rdist (p_x resting - 3000) (p_y resting - 1000) /\
  Rabs (p_vx resting) = 0 /\
  0 < Rabs (p_vx (update 4000 2000 3000 1000 resting)) /\
  ~ Rabs (p_vx (update 4000 2000 3000 1000 resting)) <= 98 / 100 * Rabs (p_vx resting).
Proof.
  assert (Hd : 3000 <= Rdist (p_x resting - 3000) (p_y resting - 1000)).
  { cbn [resting p_x p_y]. unfold Rdist.
    replace ((0 - 3000) * (0 - 3000) + (1000 - 1000) * (1000 - 1000)) with (3000 * 3000) by lra.
    rewrite sqrt_square; lra. }
  split; [exact Hd|]. split; [cbn; apply Rabs_R0|].
  rewrite update_vx_abs. cbn [resting p_x p_y p_vx].
  pose proof (Rdist_pos (0 - 3000) (1000 - 1000)) as Hpos.
  destruct (Raccel_sign (0 - 3000) _ Hpos) as (_ & _ & Hneg & _).
  specialize (Hneg ltac:(lra)).
  rewrite Rplus_0_l, Rabs_R0, (Rabs_left _ Hneg). split; lra.
Qed.
End VelocityFacts.

Module ReflectionFacts.
Import RealField RealFacts Reflection.
#[local] Open Scope R_scope.

Lemma update_coord a W Hh mx my p :
  coord a (update W Hh mx my p) =
  coord a p + (vel a p + Raccel (coord a p - along a mx my)
                                (Rdist (p_x p - mx) (p_y p - my))).
Proof. rewrite update_R. destruct a; reflexivity. Qed.

Lemma update_vel a W Hh mx my p :
  vel a (update W Hh mx my p) =
  let v := vel a p + Raccel (coord a p - along a mx my)
                            (Rdist (p_x p - mx) (p_y p - my)) in
  if outside 0 (along a W Hh) (coord a p + v) then - (98 / 100 * v) else 98 / 100 * v.
Proof. rewrite update_R. destruct a; reflexivity. Qed.

Lemma Raccel_lt a mx my p :
  Rabs (Raccel (coord a p - along a mx my) (Rdist (p_x p - mx) (p_y p - my))) < 12 / 1000.
Proof.
  apply Raccel_abs; [apply Rdist_pos|].
  destruct a; [apply abs_lt_dist_l | apply abs_lt_dist_r].
Qed.

(** C6 (as amended).  A point exactly at a canvas boundary whose velocity
    component across it is directed outward, and which one update moves
    off its place, to beyond that boundary or to inside the canvas, has
    the sign of that component flipped by the update: beyond the boundary
    the component is negated by the reflection (and damped), inside the
    canvas the repulsion of the frame has turned it.  When the speed
    after the update is at least 0.012, the bound of one frame's
    repulsion, the next update moves the point back inward, wherever the
    pointer then is. *)
Theorem reflection_at_boundary (a : Axis) (W Hh mx my : R) (p : Particle R) :
  let acc := Raccel (coord a p - along a mx my) (Rdist (p_x p - mx) (p_y p - my)) in
  let p1 := update W Hh mx my p in
  at_boundary_outward (along a W Hh) (coord a p) (vel a p) ->
  coord a p1 <> coord a p ->
  (0 <= coord a p1 <= along a W Hh \/ 0 < (coord a p1 - coord a p) * vel a p) ->
  vel a p1 * vel a p < 0 /\
  (0 < (coord a p1 - coord a p) * vel a p ->
   vel a p1 = - (98 / 100 * (vel a p + acc))) /\
  (12 / 1000 <= Rabs (vel a p1) ->
   forall mx2 my2 : R,
     (coord a (update W Hh mx2 my2 p1) - coord a p1) * vel a p < 0).
Proof.
  intros acc p1 Hb Hmoved Hwhere.
  assert (Hx : coord a p1 = coord a p + (vel a p + acc))
    by (unfold p1; rewrite update_coord; reflexivity).
  assert (Hs : vel a p + acc <> 0) by (intros Hz; apply Hmoved; rewrite Hx, Hz; ring).
  assert (Hv : vel a p1 =
               if outside 0 (along a W Hh) (coord a p1)
               then - (98 / 100 * (vel a p + acc)) else 98 / 100 * (vel a p + acc)).
  { rewrite Hx. unfold p1. rewrite update_vel. reflexivity. }
  assert (Hrefl : 0 < (coord a p1 - coord a p) * vel a p ->
                  vel a p1 = - (98 / 100 * (vel a p + acc))).
  { intros Hout. rewrite Hv.
    assert (Ho : outside 0 (along a W Hh) (coord a p1) = true).
    { apply outside_true. rewrite Hx in Hout |- *.
      destruct Hb as [[H0 Hn] | [H1 Hp]].
      - left. rewrite H0. nra.
      - right. rewrite H1. nra. }
    rewrite Ho. reflexivity. }
  assert (Hflip : vel a p1 * vel a p < 0).
  { destruct (Rlt_le_dec 0 ((coord a p1 - coord a p) * vel a p)) as [Hout | Hin].
    - rewrite (Hrefl Hout). rewrite Hx in Hout. nra.
    - destruct Hwhere as [Hinside | Hout]; [|lra].
      assert (Ho : outside 0 (along a W Hh) (coord a p1) = false)
        by (apply outside_false; exact Hinside).
      rewrite Hv, Ho. rewrite Hx in Hin.
      destruct Hb as [[H0 Hn] | [H1 Hp]]; nra. }
  split; [exact Hflip|]. split; [exact Hrefl|].
  intros Hbig mx2 my2. rewrite update_coord.
  pose proof (Raccel_lt a mx2 my2 p1) as Ha.
  set (acc2 := Raccel (coord a p1 - along a mx2 my2) _) in *.
  replace (coord a p1 + (vel a p1 + acc2) - coord a p1) with (vel a p1 + acc2) by ring.
  apply Rabs_def2 in Ha. destruct Ha as [Ha1 Ha2].
  destruct (Rcase_abs (vel a p1)) as [Hn | Hp].
  - rewrite (Rabs_left _ Hn) in Hbig.
    assert (0 < vel a p) by nra.
    assert (vel a p1 + acc2 < 0) by lra. nra.
  - rewrite (Rabs_right _ Hp) in Hbig.
    assert (vel a p < 0) by nra.
    assert (0 < vel a p1 + acc2) by lra. nra.
Qed.

Lemma reflection_at_boundary_witness :
  vel AxisX (update 100 100 50 50 leaving) * vel AxisX leaving < 0 /\
  (0 < (coord AxisX (update 100 100 50 50 leaving) - coord AxisX leaving)
       * vel AxisX leaving ->
   vel AxisX (update 100 100 50 50 leaving) =
     - (98 / 100 * (vel AxisX leaving +
          Raccel (coord AxisX leaving - 50)
                 (Rdist (p_x leaving - 50) (p_y leaving - 50))))) /\
  (12 / 1000 <= Rabs (vel AxisX (update 100 100 50 50 leaving)) ->
   forall mx2 my2 : R,
     (coord AxisX (update 100 100 mx2 my2 (update 100 100 50 50 leaving))
      - coord AxisX (update 100 100 50 50 leaving)) * vel AxisX leaving < 0).
Proof.
  pose proof (Rdist_pos (0 - 50) (50 - 50)) as Hd.
  destruct (Raccel_sign (0 - 50) _ Hd) as (_ & Hle & _).
  specialize (Hle ltac:(lra)).
  assert (Hx : coord AxisX (update 100 100 50 50 leaving) - coord AxisX leaving
               = - (2 / 10) + Raccel (0 - 50) (Rdist (0 - 50) (50 - 50))).
  { rewrite update_coord. cbn [vel coord along leaving p_x p_y p_vx]. ring. }
  apply (reflection_at_boundary AxisX 100 100 50 50 leaving).
  - left. cbn. lra.
  - intros He. rewrite He in Hx. lra.
  - right. rewrite Hx. cbn [vel leaving p_vx]. nra.
Defined.

(** The point is taken beyond its boundary, and so reflected, whenever
    the pointer is not beyond that boundary: the repulsion then pushes
    outward too. *)
Lemma still_outward (a : Axis) (W Hh mx my : R) (p : Particle R) :
  at_boundary_outward (along a W Hh) (coord a p) (vel a p) ->
  0 <= along a mx my <= along a W Hh ->
  0 < (coord a (update W Hh mx my p) - coord a p) * vel a p.
Proof.
  intros Hb Hm. rewrite update_coord.
  pose proof (Rdist_pos (p_x p - mx) (p_y p - my)) as Hd.
  destruct (Raccel_sign (coord a p - along a mx my) _ Hd) as (Hge & Hle & _).
  set (acc := Raccel _ _) in *.
  destruct Hb as [[H0 Hn] | [H1 Hp]].
  - specialize (Hle ltac:(lra)). nra.
  - specialize (Hge ltac:(lra)). nra.
Qed.
End ReflectionFacts.

Module AxisRuns.
Import RealField RealFacts Reflection ReflectionFacts.
#[local] Open Scope R_scope.

Lemma Rdist_axis d : Rdist d 0 = Rabs d + 1 / 1000.
Proof.
  unfold Rdist. replace (d * d + 0 * 0) with (Rsqr d) by (unfold Rsqr; ring).
  rewrite sqrt_Rsqr_abs. reflexivity.
Qed.

Lemma Raccel_zero dist : Raccel 0 dist = 0.
Proof. unfold Raccel. lra. Qed.

Lemma Rforce_near dist : 0 < dist <= 50 -> Rforce dist = 6 / 10.
Proof.
  intros [H0 H1]. unfold Rforce. apply Rmin_right.
  apply (Rmult_le_reg_r dist); [assumption|]. field_simplify; lra.
Qed.

(** One update of a point level with the pointer, to its left and less
    than 50 away, with no vertical velocity: the motion stays on the
    horizontal line and the repulsion is at its cap. *)
Lemma update_on_axis W Hh mx my p :
  p_y p = my -> p_vy p = 0 -> 0 <= my <= Hh ->
  p_x p < mx -> mx - p_x p + 1 / 1000 <= 50 ->
  let v := p_vx p - (mx - p_x p) / (mx - p_x p + 1 / 1000) * (12 / 1000) in
  update W Hh mx my p =
  mkParticle (p_x p + v) my
    (if outside 0 W (p_x p + v) then - (98 / 100 * v) else 98 / 100 * v)
    0 (p_r p) (p_o p).
Proof.
  intros Hy Hvy Hmy Hx Hnear v. rewrite update_R.
  rewrite Hy, Hvy. replace (my - my) with 0 by ring.
  rewrite Rdist_axis, Raccel_zero, (Rabs_left (p_x p - mx)) by lra.
  assert (Ho : outside 0 Hh (my + (0 + 0)) = false) by (apply outside_false; lra).
  rewrite Ho.
  assert (Ha : Raccel (p_x p - mx) (- (p_x p - mx) + 1 / 1000) =
               - ((mx - p_x p) / (mx - p_x p + 1 / 1000) * (12 / 1000))).
  { unfold Raccel. rewrite Rforce_near by lra. field. lra. }
  rewrite Ha. fold v.
  replace (p_vx p + - ((mx - p_x p) / (mx - p_x p + 1 / 1000) * (12 / 1000))) with v
    by (unfold v; ring).
  f_equal; ring.
Qed.

(** C6, counterexample.  Four points exactly at a boundary with outward
    velocity.  (1) On the left edge, creeping outward, the pointer 10 to
    the right: the first update flips the sign of the velocity, but the
    repulsion of the next frame outweighs the reflected velocity, and the
    second update moves the point further out, not back.  (2) On the
    right edge, the pointer 1 beyond it: the repulsion cancels the
    velocity, the point stays where it is and its velocity is 0, not
    flipped.  (3) On a canvas of width 0, the pointer to the right: the
    repulsion turns the point back, past the opposite edge, where the
    reflection negates the velocity again, which keeps its sign.  (4) In
    binary64, on the right edge with velocity 1e-15 and the pointer on
    the point: the sum [p.x + p.vx] rounds to [p.x], the test
    [p.x > canvas.width] fails and the velocity is not negated. *)
Lemma reflection_not_reversed :
  (at_boundary_outward 100 (p_x creeping) (p_vx creeping) /\
   p_vx (update 100 100 10 50 creeping) * p_vx creeping < 0 /\
   p_x (update 100 100 10 50 (update 100 100 10 50 creeping))
     < p_x (update 100 100 10 50 creeping) /\
   ~ (p_x (update 100 100 10 50 (update 100 100 10 50 creeping))
      - p_x (update 100 100 10 50 creeping)) * p_vx creeping < 0) /\
  (at_boundary_outward 100 (p_x cancelled) (p_vx cancelled) /\
   p_x (update 100 100 101 50 cancelled) = p_x cancelled /\
   p_vx (update 100 100 101 50 cancelled) = 0 /\
   ~ p_vx (update 100 100 101 50 cancelled) * p_vx cancelled < 0) /\
  (at_boundary_outward 0 (p_x squeezed) (p_vx squeezed) /\
   p_x (update 0 100 10 50 squeezed) < 0 /\
   ~ p_vx (update 0 100 10 50 squeezed) * p_vx squeezed < 0) /\
  (p_x Binary64.faint = 100%float /\
   PrimFloat.ltb 0%float (p_vx Binary64.faint) = true /\
   p_x (update 100%float 100%float 100%float 50%float Binary64.faint) = 100%float /\
   PrimFloat.ltb 0%float
     (p_vx (update 100%float 100%float 100%float 50%float Binary64.faint)) = true).
Proof.
  split; [|split; [|split]].
  - assert (H1 : update 100 100 10 50 creeping =
                 mkParticle (- (1 / 10000) - 10 / (10 + 1 / 1000) * (12 / 1000)) 50
                            (98 / 100 * (1 / 10000 + 10 / (10 + 1 / 1000) * (12 / 1000)))
                            0 1 1).
    { rewrite update_on_axis; cbn [creeping p_x p_y p_vx p_vy p_r p_o]; try lra.
      assert (Ho : outside 0 100
                     (0 + (- (1 / 10000) - (10 - 0) / (10 - 0 + 1 / 1000) * (12 / 1000)))
                   = true).
      { apply outside_true. left. lra. }
      rewrite Ho. f_equal; lra. }
    rewrite H1.
    set (u := 1 / 10000 + 10 / (10 + 1 / 1000) * (12 / 1000)).
    assert (Hu : 1209 / 100000 <= u <= 121 / 10000) by (unfold u; lra).
    replace (- (1 / 10000) - 10 / (10 + 1 / 1000) * (12 / 1000)) with (- u)
      by (unfold u; ring).
    rewrite update_on_axis; cbn [creeping p_x p_y p_vx p_vy p_r p_o]; try lra.
    set (r := (10 - - u) / (10 - - u + 1 / 1000)).
    assert (Hr : 9999 / 10000 <= r).
    { assert (Hq : r * (10 - - u + 1 / 1000) = 10 - - u) by (unfold r; field; lra).
      nra. }
    split; [left; cbn; lra|]. split; [nra|]. split; nra.
  - assert (H1 : update 100 100 101 50 cancelled = mkParticle 100 50 0 0 1 1).
    { rewrite update_on_axis; cbn [cancelled p_x p_y p_vx p_vy p_r p_o]; try lra.
      assert (Hz : 12 / 1001 - (101 - 100) / (101 - 100 + 1 / 1000) * (12 / 1000) = 0)
        by lra.
      rewrite Hz.
      assert (Ho : outside 0 100 (100 + 0) = false) by (apply outside_false; lra).
      rewrite Ho. f_equal; lra. }
    rewrite H1. cbn [cancelled p_x p_vx].
    split; [right; lra|]. split; [reflexivity|]. split; [reflexivity | lra].
  - set (v := 1 / 1000 - (10 - 0) / (10 - 0 + 1 / 1000) * (12 / 1000)).
    assert (Hv : v < 0) by (unfold v; lra).
    assert (H1 : update 0 100 10 50 squeezed = mkParticle v 50 (- (98 / 100 * v)) 0 1 1).
    { rewrite update_on_axis; cbn [squeezed p_x p_y p_vx p_vy p_r p_o]; try lra.
      fold v.
      assert (Ho : outside 0 0 (0 + v) = true) by (apply outside_true; left; lra).
      rewrite Ho. f_equal; lra. }
    rewrite H1. cbn [squeezed p_x p_vx].
    split; [right; lra|]. split; [exact Hv | nra].
  - repeat split; vm_compute; reflexivity.
Qed.

(** The same two runs in binary64: the second update of the creeping
    point takes it further out, and the resting point far from the pointer
    is moving after one update. *)
Lemma runs_binary64 :
  PrimFloat.ltb
    (p_x (frames 2 100%float 100%float 10%float 50%float Binary64.creeping))
    (p_x (frames 1 100%float 100%float 10%float 50%float Binary64.creeping)) = true /\
  PrimFloat.ltb 0%float
    (p_vx (update 4000%float 2000%float 3000%float 1000%float Binary64.resting)) = true.
Proof. split; vm_compute; reflexivity. Qed.
End AxisRuns.

(** ** Positions are not kept inside the canvas *)

Module Escape.
Import RealField RealFacts Reflection VelocityFacts.
#[local] Open Scope R_scope.

(** A point left of the pointer that the next step takes to the left edge
    or beyond, and that is so close to the edge (or beyond it) that a
    velocity damped to 2% would not bring it inside, is strictly outside
    after the update and again in that situation: the reflection negates
    its velocity on every frame it spends outside, also when the velocity
    already points inward, and the repulsion pushes it further out. *)
Lemma left_edge_trap W Hh mx my p :
  p_x p < mx ->
  p_x p + p_vx p <= 0 -> p_x p + 2 / 100 * p_vx p <= 0 ->
  p_x (update W Hh mx my p) < 0 /\
  p_x (update W Hh mx my p) + p_vx (update W Hh mx my p) <= 0 /\
  p_x (update W Hh mx my p) + 2 / 100 * p_vx (update W Hh mx my p) <= 0.
Proof.
  intros Hm Hx Hv. rewrite update_R; cbv zeta; cbn [p_x p_vx].
  pose proof (Rdist_pos (p_x p - mx) (p_y p - my)) as Hd.
  destruct (Raccel_sign (p_x p - mx) _ Hd) as (_ & _ & Hneg & _).
  specialize (Hneg ltac:(lra)).
  set (acc := Raccel _ _) in *.
  assert (Ho : outside 0 W (p_x p + (p_vx p + acc)) = true)
    by (apply outside_true; left; lra).
  rewrite Ho. repeat split; lra.
Qed.

Lemma left_edge_trap_frames n W Hh mx my p :
  0 < mx -> p_x p < mx ->
  p_x p + p_vx p <= 0 -> p_x p + 2 / 100 * p_vx p <= 0 ->
  p_x (frames (S n) W Hh mx my p) < 0 /\
  p_x (frames (S n) W Hh mx my p) + p_vx (frames (S n) W Hh mx my p) <= 0 /\
  p_x (frames (S n) W Hh mx my p) + 2 / 100 * p_vx (frames (S n) W Hh mx my p) <= 0.
Proof.
  intros Hm Hlt Hx Hv. induction n as [|n IH].
  - cbn [frames]. apply left_edge_trap; assumption.
  - rewrite frames_S. destruct IH as (H1 & H2 & H3).
    apply left_edge_trap; [lra | assumption | assumption].
Qed.

(** C2, at the failing input.  The canvas is 100 x 100, the pointer is
    held at its centre and the point starts just inside the left edge with
    the velocity (-0.2, 0), which initialization can give it.  Over the
    reals, the point is strictly outside the canvas after every frame from
    the first on, although its speed stays within the bound 0.588; in
    binary64 it is outside after each of the first three frames and more
    than 20 outside after 5000 frames. *)
Theorem point_leaves_canvas :
  (forall n : nat,
     p_x (frames (S n) 100 100 50 50 grazing) < 0 /\
     Rabs (p_vx (frames (S n) 100 100 50 50 grazing)) <= 588 / 1000) /\
  0 < p_x grazing < 100 /\ 0 < p_y grazing < 100 /\
  Binary64.outside 0 100
    (p_x (frames 1 100%float 100%float 50%float 50%float Binary64.grazing)) = true /\
  Binary64.outside 0 100
    (p_x (frames 2 100%float 100%float 50%float 50%float Binary64.grazing)) = true /\
  Binary64.outside 0 100
    (p_x (frames 3 100%float 100%float 50%float 50%float Binary64.grazing)) = true /\
  PrimFloat.ltb (p_x (frames 5000 100%float 100%float 50%float 50%float Binary64.grazing))
                (-20)%float = true.
Proof.
  split.
  - intros n. split.
    + apply left_edge_trap_frames; cbn [grazing p_x p_vx]; lra.
    + apply velocity_bounded; cbn [grazing p_vx p_vy]; try lra.
      * rewrite Rabs_Ropp, Rabs_pos_eq; lra.
      * rewrite Rabs_R0; lra.
  - split; [cbn; lra|]. split; [cbn; lra|].
    repeat split; vm_compute; reflexivity.
Qed.
End Escape.

(** ** Mounting, pointer moves and unmounting *)

Section LifecycleFacts.
Context {A : Type} `{Number A} `{EqDecision A}.
Variable devicePixelRatio : A.
Variable rand : nat -> A.
Variable wave_height : Z.

#[local] Abbreviation dpr := (Math_min devicePixelRatio (dec 2 0)).
#[local] Abbreviation step' := (step rand wave_height).
#[local] Abbreviation run' := (run rand wave_height).
#[local] Abbreviation mount' := (mount devicePixelRatio rand wave_height).
#[local] Abbreviation effect' := (effect rand wave_height).
#[local] Abbreviation flush' := (flush rand wave_height).
#[local] Abbreviation fire' := (fire wave_height).
#[local] Abbreviation call' := (call wave_height).
#[local] Abbreviation resize' := (resize wave_height).

Lemma addEventListener_new ty cb (win : Window) :
  (ty, cb) ∉ listeners win ->
  addEventListener ty cb win =
  mkWindow (listeners win ++ [(ty, cb)]) (frame_requests win) (next_handle win).
Proof. intros Hn. unfold addEventListener. destruct (decide _); [contradiction | reflexivity]. Qed.

Ltac fields :=
  cbn [window mounted pos effect_run effect_deps pending raf dprs canvas particles rng log
       listeners frame_requests next_handle] in *.

Ltac world_eval :=
  cbv beta iota zeta delta
    [effect cleanup resize logged with_window with_canvas with_pending loop draw
     request_frame requestAnimationFrame dpr_of onMove detached
     window mounted pos effect_run effect_deps pending raf dprs canvas particles rng log
     listeners frame_requests next_handle fst snd resized restarted].

Ltac world_eval_in H :=
  cbv beta iota zeta delta
    [window mounted pos effect_run effect_deps pending raf dprs canvas particles rng log
     listeners frame_requests next_handle fst snd] in H.

Lemma dpr_of_insert k d (ds : gmap nat A) : default (dec 1 0) (<[k := d]> ds !! k) = d.
Proof. rewrite lookup_insert_eq. reflexivity. Qed.

Lemma effect_ParticleField k d m (w : World A) :
  (resize_event, Resize k) ∉ listeners (window w) ->
  effect' ParticleField k d m w =
  mkWorld
    (mkWindow (listeners (window w) ++ [(resize_event, Resize k)])
              (frame_requests (window w) ++ [(next_handle (window w), Loop k m)])
              (S (next_handle (window w))))
    (mounted w) (pos w) k (d, m) (pending w) (<[k := next_handle (window w)]> (raf w))
    (<[k := d]> (dprs w))
    (resized d wave_height ParticleField (canvas w))
    (restarted d rand (resized d wave_height ParticleField (canvas w)) m (rng w))
    (rng w + 6 * particle_count A (resized d wave_height ParticleField (canvas w)))%nat
    (log w ++ [Resize k; Loop k m]).
Proof.
  intros Hnot. destruct w as [win m0 ps k0 dp pd r ds cv pts g l].
  world_eval. world_eval_in Hnot.
  rewrite (addEventListener_new _ _ _ Hnot). world_eval.
  rewrite !dpr_of_insert, <- app_assoc. reflexivity.
Qed.

Lemma effect_SoundWaves k d m (w : World A) :
  (resize_event, Resize k) ∉ listeners (window w) ->
  effect' SoundWaves k d m w =
  mkWorld
    (mkWindow (listeners (window w) ++ [(resize_event, Resize k)])
              (frame_requests (window w) ++ [(next_handle (window w), Draw k m)])
              (S (next_handle (window w))))
    (mounted w) (pos w) k (d, m) (pending w) (<[k := next_handle (window w)]> (raf w))
    (<[k := d]> (dprs w))
    (resized d wave_height SoundWaves (canvas w))
    (particles w) (rng w)
    (log w ++ [Resize k; Draw k m]).
Proof.
  intros Hnot. destruct w as [win m0 ps k0 dp pd r ds cv pts g l].
  world_eval. world_eval_in Hnot.
  rewrite (addEventListener_new _ _ _ Hnot). world_eval.
  rewrite !dpr_of_insert, <- app_assoc. reflexivity.
Qed.

Lemma cancel_only h cb ls n :
  cancelAnimationFrame (Some h) (mkWindow ls [(h, cb)] n) = mkWindow ls [] n.
Proof.
  unfold cancelAnimationFrame; cbn [listeners frame_requests next_handle].
  rewrite filter_cons, filter_nil. destruct (decide _) as [Hne|_]; [|reflexivity].
  exfalso. apply Hne. reflexivity.
Qed.

Lemma remove_resize k fr n :
  removeEventListener resize_event (Resize k)
    (mkWindow [(mousemove, OnMove); (resize_event, Resize k)] fr n)
  = mkWindow [(mousemove, OnMove)] fr n.
Proof.
  unfold removeEventListener; cbn [listeners frame_requests next_handle].
  rewrite !filter_cons, filter_nil.
  destruct (decide ((mousemove, OnMove) <> (resize_event, Resize k))) as [_|Hn];
    [| exfalso; apply Hn; discriminate].
  destruct (decide ((resize_event, Resize k) <> (resize_event, Resize k))) as [Hn|_];
    [exfalso; apply Hn; reflexivity | reflexivity].
Qed.

Lemma remove_mousemove fr n :
  removeEventListener mousemove OnMove (mkWindow [(mousemove, OnMove)] fr n)
  = mkWindow [] fr n.
Proof.
  unfold removeEventListener; cbn [listeners frame_requests next_handle].
  rewrite filter_cons, filter_nil.
  destruct (decide _) as [Hn|_]; [exfalso; apply Hn; reflexivity | reflexivity].
Qed.

(** With the listeners of a running [ParticleField], a mouse move reaches
    [onMove] and nothing else, and a window resize reaches [resize]. *)
Lemma fire_mousemove c e k (w : World A) :
  listeners (window w) = [(mousemove, OnMove); (resize_event, Resize k)] ->
  fire' c mousemove e w = onMove e (logged OnMove w).
Proof.
  intros Hl. unfold fire. rewrite Hl. cbn [fold_left fst snd call].
  destruct (decide (mousemove = mousemove)) as [_|Hn]; [|contradiction].
  destruct (decide (resize_event = mousemove)) as [Hn|_]; [discriminate | reflexivity].
Qed.

Lemma fire_resize c e k (w : World A) :
  listeners (window w) = [(mousemove, OnMove); (resize_event, Resize k)] ->
  fire' c resize_event e w = resize' c k w.
Proof.
  intros Hl. unfold fire. rewrite Hl. cbn [fold_left fst snd call].
  destruct (decide (mousemove = resize_event)) as [Hn|_]; [discriminate|].
  destruct (decide (resize_event = resize_event)) as [_|Hn]; [reflexivity | contradiction].
Qed.

Lemma mount_running cv : running (mount' ParticleField cv).
Proof.
  unfold mount. rewrite addEventListener_new by (cbn; apply not_elem_of_nil).
  rewrite effect_ParticleField.
  - unfold running; world_eval. split; [reflexivity|].
    exists 1%nat. split; [apply lookup_insert_eq|]. split; [apply lookup_insert_eq|].
    reflexivity.
  - world_eval. intros Hin. apply list_elem_of_singleton in Hin. discriminate.
Qed.

(** Setting [pos], the canvas size or the effect to run does not touch
    what makes a [ParticleField] running. *)
Lemma running_with_pending deps (w : World A) : running w -> running (with_pending w deps).
Proof. intros Hr. exact Hr. Qed.

(** *** What each event does to a running [ParticleField] *)

(** A mouse move sets [pos] and nothing else. *)
Lemma move_running x y (w : World A) :
  running w ->
  step' ParticleField w (MouseMove x y) =
  mkWorld (window w) true (x, y) (effect_run w) (effect_deps w) (pending w) (raf w)
          (dprs w) (canvas w) (particles w) (rng w) (log w ++ [OnMove]).
Proof.
  intros (Hm & h & Hraf & Hd & Hw).
  destruct w as [win m ps k dp pd r ds cv pts g l]. fields. subst win m.
  unfold step. rewrite (fire_mousemove _ _ k) by reflexivity. reflexivity.
Qed.

Lemma flush_none c (w : World A) : pending w = None -> flush' c w = w.
Proof. intros Hp. unfold flush. rewrite Hp. reflexivity. Qed.

(** The effect that has still to run: the run before is cleaned up and
    the effect runs again, in the closure of its render. *)
Lemma flush_running d m (w : World A) :
  running w -> pending w = Some (d, m) ->
  exists h : nat,
    raf w !! effect_run w = Some h /\
    frame_requests (window w) = [(h, Loop (effect_run w) (snd (effect_deps w)))] /\
    flush' ParticleField w =
    mkWorld
      (mkWindow [(mousemove, OnMove); (resize_event, Resize (S (effect_run w)))]
                [(S h, Loop (S (effect_run w)) m)] (S (S h)))
      true (pos w) (S (effect_run w)) (d, m) None
      (<[S (effect_run w) := S h]> (raf w))
      (<[S (effect_run w) := d]> (dprs w))
      (resized d wave_height ParticleField (canvas w))
      (restarted d rand (resized d wave_height ParticleField (canvas w)) m (rng w))
      (rng w + 6 * particle_count A (resized d wave_height ParticleField (canvas w)))%nat
      (log w ++ [Resize (S (effect_run w)); Loop (S (effect_run w)) m]).
Proof.
  intros (Hm & h & Hraf & Hd & Hw) Hp.
  destruct w as [win m0 ps k dp pd r ds cv pts g l]. fields. subst win m0 pd.
  exists h. split; [exact Hraf|]. split; [reflexivity|].
  unfold flush; fields.
  unfold cleanup, with_window, with_pending; fields.
  rewrite Hraf, cancel_only, remove_resize.
  rewrite effect_ParticleField.
  - world_eval. reflexivity.
  - world_eval. intros Hin. apply list_elem_of_singleton in Hin. discriminate.
Qed.

Lemma flush_keeps_running (w : World A) : running w -> running (flush' ParticleField w).
Proof.
  intros Hr. destruct (pending w) as [[d m]|] eqn:Hp.
  - destruct (flush_running d m w Hr Hp) as (h & _ & _ & ->).
    unfold running; fields. split; [reflexivity|].
    exists (S h). split; [apply lookup_insert_eq|]. split; [apply lookup_insert_eq|].
    reflexivity.
  - rewrite (flush_none _ _ Hp). exact Hr.
Qed.

(** A render: the effect still to run runs first, and the canvas effect
    is to run again when its dependencies are not those of the render
    before. *)
Lemma render_running ratio (w : World A) :
  running w ->
  step' ParticleField w (Render ratio) =
  with_pending (flush' ParticleField w)
    (if decide ((Math_min ratio (dec 2 0), pos (flush' ParticleField w))
                = effect_deps (flush' ParticleField w))
     then pending (flush' ParticleField w)
     else Some (Math_min ratio (dec 2 0), pos (flush' ParticleField w))).
Proof.
  intros (Hm & _). unfold step. rewrite Hm. unfold render.
  destruct (decide _); [|reflexivity].
  destruct (flush' ParticleField w); reflexivity.
Qed.

Lemma effects_running (w : World A) :
  running w -> step' ParticleField w Effects = flush' ParticleField w.
Proof. intros (Hm & _). unfold step. rewrite Hm. reflexivity. Qed.

Lemma resize_running (w : World A) :
  running w ->
  step' ParticleField w WindowResize =
  mkWorld (window w) true (pos w) (effect_run w) (effect_deps w) (pending w) (raf w)
          (dprs w)
          (resized (fst (effect_deps w)) wave_height ParticleField (canvas w))
          (particles w) (rng w) (log w ++ [Resize (effect_run w)]).
Proof.
  intros (Hm & h & Hraf & Hd & Hw).
  destruct w as [win m ps k dp pd r ds cv pts g l]. fields. subst win m.
  unfold step. rewrite (fire_resize _ _ k) by reflexivity.
  world_eval. rewrite Hd. reflexivity.
Qed.

Lemma frame_running (w : World A) :
  running w ->
  exists h : nat,
    window w = mkWindow [(mousemove, OnMove); (resize_event, Resize (effect_run w))]
                        [(h, Loop (effect_run w) (snd (effect_deps w)))] (S h) /\
    step' ParticleField w AnimationFrame =
    mkWorld (mkWindow [(mousemove, OnMove); (resize_event, Resize (effect_run w))]
                      [(S h, Loop (effect_run w) (snd (effect_deps w)))] (S (S h)))
            true (pos w) (effect_run w) (effect_deps w) (pending w)
            (<[effect_run w := S h]> (raf w)) (dprs w) (canvas w)
            (map (update (of_Z (width (canvas w))) (of_Z (height (canvas w)))
                         (num_mul (of_Z (fst (snd (effect_deps w)))) (fst (effect_deps w)))
                         (num_mul (of_Z (snd (snd (effect_deps w)))) (fst (effect_deps w))))
                 (particles w))
            (rng w) (log w ++ [Loop (effect_run w) (snd (effect_deps w))]).
Proof.
  intros (Hm & h & Hraf & Hd & Hw).
  destruct w as [win m ps k dp pd r ds cv pts g l]. fields. subst win m.
  exists h. split; [reflexivity|].
  unfold step, with_window; fields; cbn [fold_left snd call].
  world_eval. rewrite Hd. reflexivity.
Qed.

Lemma layout_running cw ch (w : World A) :
  running w ->
  step' ParticleField w (Layout cw ch) =
  mkWorld (window w) true (pos w) (effect_run w) (effect_deps w) (pending w) (raf w)
          (dprs w) (mkCanvas cw ch (width (canvas w)) (height (canvas w)))
          (particles w) (rng w) (log w).
Proof.
  intros (Hm & _). destruct w as [win m ps k dp pd r ds cv pts g l]. fields. subst m.
  reflexivity.
Qed.

(** The unmount runs the effect still to run, and then takes everything
    of the component away. *)
Lemma unmount_running (w : World A) :
  running w ->
  exists h : nat,
    step' ParticleField w Unmount =
    mkWorld (mkWindow [] [] (S h)) false
            (pos (flush' ParticleField w)) (effect_run (flush' ParticleField w))
            (effect_deps (flush' ParticleField w)) (pending (flush' ParticleField w))
            (raf (flush' ParticleField w)) (dprs (flush' ParticleField w))
            (detached (canvas (flush' ParticleField w)))
            (particles (flush' ParticleField w)) (rng (flush' ParticleField w))
            (log (flush' ParticleField w)).
Proof.
  intros Hr. pose proof (flush_keeps_running w Hr) as (Hm1 & h & Hraf & Hd & Hw).
  destruct Hr as (Hm & _). unfold step. rewrite Hm.
  destruct (flush' ParticleField w) as [win m ps k dp pd r ds cv pts g l].
  fields. subst win m.
  exists h. unfold cleanup, with_window; fields.
  rewrite Hraf, cancel_only, remove_resize, remove_mousemove. reflexivity.
Qed.

Lemma running_mounted (w : World A) : running w -> mounted w = true.
Proof. intros (Hm & _). exact Hm. Qed.

Lemma step_running (w : World A) ev :
  running w ->
  running (step' ParticleField w ev) \/ stopped (step' ParticleField w ev).
Proof.
  intros Hr. destruct ev as [x y | | | | ratio | | cw ch].
  - (* MouseMove *)
    left. rewrite (move_running x y w Hr).
    destruct Hr as (Hm & h & Hraf & Hd & Hw).
    unfold running; fields. split; [reflexivity|].
    exists h. repeat split; assumption.
  - (* WindowResize *)
    left. rewrite (resize_running w Hr).
    destruct Hr as (Hm & h & Hraf & Hd & Hw).
    unfold running; fields. split; [reflexivity|].
    exists h. repeat split; assumption.
  - (* AnimationFrame *)
    left. destruct (frame_running w Hr) as (h & Hw & ->).
    destruct Hr as (Hm & _ & _ & Hd & _).
    unfold running; fields. split; [reflexivity|].
    exists (S h). split; [apply lookup_insert_eq|]. split; [exact Hd | reflexivity].
  - (* Unmount *)
    right. destruct (unmount_running w Hr) as (h & ->).
    unfold stopped; fields. repeat split; reflexivity.
  - (* Render *)
    left. rewrite (render_running ratio w Hr).
    apply running_with_pending, flush_keeps_running, Hr.
  - (* Effects *)
    left. rewrite (effects_running w Hr). apply flush_keeps_running, Hr.
  - (* Layout *)
    left. rewrite (layout_running cw ch w Hr).
    destruct Hr as (Hm & h & Hraf & Hd & Hw).
    unfold running; fields. split; [reflexivity|].
    exists h. repeat split; assumption.
Qed.

Lemma step_stopped (w : World A) ev :
  stopped w -> step' ParticleField w ev = w.
Proof.
  intros (Hm & Hl & Hf).
  destruct w as [[ls fr n] m ps k dp pd r ds cv pts g l]. fields. subst ls fr m.
  destruct ev; reflexivity.
Qed.

Lemma run_stopped (w : World A) evs :
  stopped w -> run' ParticleField w evs = w.
Proof.
  intros Hs. induction evs as [|ev evs IH]; [reflexivity|].
  unfold run in *. cbn [fold_left]. rewrite (step_stopped w ev Hs). exact IH.
Qed.

Lemma run_reach (w : World A) evs :
  running w \/ stopped w ->
  running (run' ParticleField w evs) \/ stopped (run' ParticleField w evs).
Proof.
  revert w. induction evs as [|ev evs IH]; intros w Hw; [exact Hw|].
  unfold run in *. cbn [fold_left]. apply IH.
  destruct Hw as [Hr | Hs].
  - apply step_running, Hr.
  - rewrite (step_stopped w ev Hs). right. exact Hs.
Qed.

Lemma reached (cv : Canvas) (evs : list Event) :
  running (run' ParticleField (mount' ParticleField cv) evs) \/
  stopped (run' ParticleField (mount' ParticleField cv) evs).
Proof. apply run_reach. left. apply mount_running. Qed.

Lemma reached_mounted (cv : Canvas) (evs : list Event) :
  mounted (run' ParticleField (mount' ParticleField cv) evs) = true ->
  running (run' ParticleField (mount' ParticleField cv) evs).
Proof.
  intros Hm. destruct (reached cv evs) as [Hr | (Hs & _)]; [exact Hr|].
  rewrite Hm in Hs. discriminate.
Qed.

(** X29.  [ParticleField] cleans up after itself: once it is unmounted,
    after any history, the browser holds neither a frame request nor a
    listener of it, and no later event runs any of its callbacks or
    changes its state. *)
Lemma particlefield_unmount_quiet cv evs later :
  stopped (step' ParticleField (run' ParticleField (mount' ParticleField cv) evs) Unmount) /\
  run' ParticleField
       (step' ParticleField (run' ParticleField (mount' ParticleField cv) evs) Unmount) later
  = step' ParticleField (run' ParticleField (mount' ParticleField cv) evs) Unmount.
Proof.
  assert (Hs : stopped (step' ParticleField
                          (run' ParticleField (mount' ParticleField cv) evs) Unmount)).
  { destruct (run_reach (mount' ParticleField cv) evs (or_introl (mount_running cv)))
      as [Hr | Hs].
    - destruct (step_running _ Unmount Hr) as [Hr' | Hs']; [|exact Hs'].
      exfalso. apply running_mounted in Hr'. revert Hr'.
      destruct (unmount_running _ Hr) as (h & ->). discriminate.
    - rewrite (step_stopped _ Unmount Hs). exact Hs. }
  split; [exact Hs | apply run_stopped, Hs].
Qed.

(** C9, at the failing input.  [SoundWaves] is mounted and unmounted at
    once.  Its frame request is cancelled, but its resize listener is
    still registered, and the next resize of the window runs [resize] of
    the unmounted component, which writes to its canvas. *)
Theorem soundwaves_resize_after_unmount (cv : Canvas) :
  let w := step' SoundWaves (mount' SoundWaves cv) Unmount in
  mounted w = false /\
  frame_requests (window w) = [] /\
  listeners (window w) = [(resize_event, Resize 0)] /\
  log (step' SoundWaves w WindowResize) = log w ++ [Resize 0] /\
  canvas (step' SoundWaves w WindowResize) = resized dpr wave_height SoundWaves (canvas w).
Proof.
  cbv zeta.
  assert (Hu : step' SoundWaves (mount' SoundWaves cv) Unmount =
               mkWorld (mkWindow [(resize_event, Resize 0)] [] 2) false (0, 0) 0%nat
                       (dpr, (0, 0)) None (<[0%nat := 1%nat]> ∅) (<[0%nat := dpr]> ∅)
                       (detached (resized dpr wave_height SoundWaves cv)) [] 0%nat
                       [Resize 0; Draw 0 (0, 0)]).
  { unfold mount. rewrite addEventListener_new by (cbn; apply not_elem_of_nil).
    rewrite effect_SoundWaves
      by (world_eval; intros Hin; apply list_elem_of_singleton in Hin; discriminate).
    unfold with_window; fields. cbn [app].
    unfold step; fields. unfold flush; fields. unfold cleanup, with_window; fields.
    rewrite lookup_insert_eq, cancel_only.
    unfold removeEventListener; fields.
    rewrite !filter_cons, filter_nil.
    destruct (decide ((mousemove, OnMove) <> (mousemove, OnMove))) as [Hn|_];
      [exfalso; apply Hn; reflexivity|].
    destruct (decide ((resize_event, Resize 0) <> (mousemove, OnMove))) as [_|Hn];
      [|exfalso; apply Hn; discriminate].
    reflexivity. }
  rewrite Hu. fields.
  split; [reflexivity|]. split; [reflexivity|]. split; [reflexivity|].
  unfold step, fire; fields. cbn [fold_left fst snd call].
  destruct (decide (resize_event = resize_event)) as [_|Hn]; [|contradiction].
  world_eval. rewrite dpr_of_insert. split; reflexivity.
Qed.
End LifecycleFacts.

(** ** Initialization of the particles *)

Module InitFacts.
Import Samples.
#[local] Open Scope R_scope.

Lemma Int_part_quot (a b : Z) : (0 < b)%Z -> Int_part (IZR a / IZR b) = (a / b)%Z.
Proof.
  intros Hb. symmetry. apply Int_part_spec.
  pose proof (Z.div_mod a b ltac:(lia)) as Hdm.
  pose proof (Z.mod_pos_bound a b Hb) as [Hm0 Hm1].
  assert (HB : 0 < IZR b) by (apply IZR_lt; exact Hb).
  assert (Ha : IZR a = IZR b * IZR (a / b) + IZR (a mod b))
    by (rewrite <- mult_IZR, <- plus_IZR; f_equal; exact Hdm).
  apply IZR_le in Hm0. apply IZR_lt in Hm1.
  assert (Hq : IZR a / IZR b = IZR (a / b) + IZR (a mod b) / IZR b)
    by (rewrite Ha; field; lra).
  assert (Hf : 0 <= IZR (a mod b) / IZR b < 1).
  { split.
    - apply Rmult_le_pos; [exact Hm0 | left; apply Rinv_0_lt_compat; exact HB].
    - apply (Rmult_lt_reg_r (IZR b)); [exact HB|]. field_simplify; lra. }
  lra.
Qed.

(** Over the reals the count is the integer quotient of the CSS area. *)
Lemma count_R (c : Canvas) : count R c = (clientWidth c * clientHeight c / 18000)%Z.
Proof.
  unfold count. change (@dec R _ 18000 0) with (IZR 18000).
  cbn [num_mul num_div Math_floor of_Z R_number].
  rewrite <- mult_IZR. apply Int_part_quot. lia.
Qed.

Lemma Rtrunc_IZR (z : Z) : (0 <= z)%Z -> Rtrunc (IZR z) = z.
Proof.
  intros Hz. unfold Rtrunc. apply IZR_le in Hz.
  destruct (Rlt_dec (IZR z) 0) as [Hn|_]; [lra|].
  symmetry. apply Int_part_spec. lra.
Qed.

Section Fill.
Context {A : Type} `{Number A}.

Lemma fill_map_length (c : Canvas) (rand : nat -> A) n : forall i,
  length (fill_map c rand i n) = n.
Proof. induction n as [|n IH]; intros i; cbn [fill_map length]; [|rewrite IH]; reflexivity. Qed.

Lemma fill_map_lookup (c : Canvas) (rand : nat -> A) n : forall i j (p : Particle A),
  fill_map c rand i n !! j = Some p -> p = new_particle c rand (i + 6 * j)%nat.
Proof.
  induction n as [|n IH]; intros i j p Hl; cbn [fill_map] in Hl; [discriminate|].
  destruct j as [|j]; cbn in Hl.
  - inversion Hl. f_equal. lia.
  - apply IH in Hl. rewrite Hl. f_equal. lia.
Qed.

End Fill.

(** C5 (as amended).  On a canvas of CSS size [clientWidth] x
    [clientHeight] whose drawing surface is [width] x [height] device
    pixels, initialization creates exactly
    [max(60, floor(clientWidth * clientHeight / 18000))] points, counted
    from the CSS size and not from the size of the surface; each point takes
    six successive random numbers, and with these in [0, 1) its position
    lies inside the surface, its velocity components in [-0.2, 0.2], its
    radius in [0.5, 2.5] and its opacity in [0.2, 0.8], each an increasing
    affine image of its own random number. *)
Theorem init_particles_spec (c : Canvas) (rand : nat -> R) (i : nat) :
  (forall k, 0 <= rand k < 1) ->
  (0 <= width c)%Z -> (0 <= height c)%Z ->
  length (init_particles c rand i)
    = Z.to_nat (Z.max 60 (clientWidth c * clientHeight c / 18000)) /\
  forall (j : nat) (p : Particle R),
    init_particles c rand i !! j = Some p ->
    p_x p = rand (i + 6 * j)%nat * IZR (width c) /\
    p_y p = rand (i + 6 * j + 1)%nat * IZR (height c) /\
    p_vx p = (rand (i + 6 * j + 2)%nat - 5 / 10) * (4 / 10) /\
    p_vy p = (rand (i + 6 * j + 3)%nat - 5 / 10) * (4 / 10) /\
    p_r p = rand (i + 6 * j + 4)%nat * 2 + 5 / 10 /\
    p_o p = rand (i + 6 * j + 5)%nat * (6 / 10) + 2 / 10 /\
    0 <= p_x p <= IZR (width c) /\ 0 <= p_y p <= IZR (height c) /\
    - (2 / 10) <= p_vx p <= 2 / 10 /\ - (2 / 10) <= p_vy p <= 2 / 10 /\
    5 / 10 <= p_r p <= 25 / 10 /\ 2 / 10 <= p_o p <= 8 / 10.
Proof.
  intros Hrand Hw Hh. apply IZR_le in Hw, Hh. split.
  - unfold init_particles, particle_count. rewrite fill_map_length, count_R. reflexivity.
  - intros j p Hl. apply fill_map_lookup in Hl. subst p.
    unfold new_particle; cbn [p_x p_y p_vx p_vy p_r p_o].
    change (@dec R _ 5 1) with (5 / 10); change (@dec R _ 4 1) with (4 / 10);
    change (@dec R _ 2 0) with 2; change (@dec R _ 6 1) with (6 / 10);
    change (@dec R _ 2 1) with (2 / 10).
    cbn [num_add num_sub num_mul of_Z R_number].
    pose proof (Hrand (i + 6 * j)%nat). pose proof (Hrand (i + 6 * j + 1)%nat).
    pose proof (Hrand (i + 6 * j + 2)%nat). pose proof (Hrand (i + 6 * j + 3)%nat).
    pose proof (Hrand (i + 6 * j + 4)%nat). pose proof (Hrand (i + 6 * j + 5)%nat).
    repeat split; try reflexivity; try lra; nra.
Qed.

Lemma init_particles_spec_witness :
  length (init_particles retina_sized half 0)
    = Z.to_nat (Z.max 60 (clientWidth retina_sized * clientHeight retina_sized / 18000)) /\
  forall (j : nat) (p : Particle R),
    init_particles retina_sized half 0 !! j = Some p ->
    p_x p = half (0 + 6 * j)%nat * IZR (width retina_sized) /\
    p_y p = half (0 + 6 * j + 1)%nat * IZR (height retina_sized) /\
    p_vx p = (half (0 + 6 * j + 2)%nat - 5 / 10) * (4 / 10) /\
    p_vy p = (half (0 + 6 * j + 3)%nat - 5 / 10) * (4 / 10) /\
    p_r p = half (0 + 6 * j + 4)%nat * 2 + 5 / 10 /\
    p_o p = half (0 + 6 * j + 5)%nat * (6 / 10) + 2 / 10 /\
    0 <= p_x p <= IZR (width retina_sized) /\ 0 <= p_y p <= IZR (height retina_sized) /\
    - (2 / 10) <= p_vx p <= 2 / 10 /\ - (2 / 10) <= p_vy p <= 2 / 10 /\
    5 / 10 <= p_r p <= 25 / 10 /\ 2 / 10 <= p_o p <= 8 / 10.
Proof.
  apply (init_particles_spec retina_sized half 0).
  - intros k. unfold half. lra.
  - cbn. lia.
  - cbn. lia.
Defined.

(** C5, counterexample.  The canvas measures 1800 x 1000 CSS pixels on a
    display with [devicePixelRatio] 2, so that its drawing surface is
    3600 x 2000 device pixels.  Mounting [ParticleField] creates 100
    points, where the formula applied to the surface size gives 400. *)
Lemma count_on_retina :
  canvas (mount 2 half 360 ParticleField retina) = retina_sized /\
  length (particles (mount 2 half 360 ParticleField retina)) = 100%nat /\
  Z.to_nat (Z.max 60 (width retina_sized * height retina_sized / 18000)) = 400%nat.
Proof.
  assert (Hc : resized (2 : R) 360 ParticleField retina = retina_sized).
  { unfold resized, retina, retina_sized; cbn [clientWidth clientHeight].
    cbn [num_mul of_Z trunc R_number].
    replace (IZR 1800 * 2) with (IZR 3600) by lra.
    replace (IZR 1000 * 2) with (IZR 2000) by lra.
    rewrite !Rtrunc_IZR by lia. reflexivity. }
  unfold mount.
  assert (Hd : @Math_min R _ 2 (dec 2 0) = 2)
    by (change (@dec R _ 2 0) with 2; cbn [Math_min R_number]; apply Rmin_left; lra).
  rewrite Hd.
  rewrite addEventListener_new by (cbn; apply not_elem_of_nil).
  rewrite effect_ParticleField
    by (cbn; intros Hin; apply list_elem_of_singleton in Hin; discriminate).
  cbn [canvas particles with_window]. rewrite Hc.
  split; [reflexivity|]. split; [|reflexivity].
  unfold restarted. rewrite length_map. unfold init_particles, particle_count.
  rewrite fill_map_length, count_R. reflexivity.
Qed.

(** The same count in binary64. *)
Lemma count_on_retina_binary64 :
  canvas (mount 2%float (fun _ => 0.5%float) 360 ParticleField retina) = retina_sized /\
  length (particles (mount 2%float (fun _ => 0.5%float) 360 ParticleField retina)) = 100%nat.
Proof. split; vm_compute; reflexivity. Qed.

(** The range of the radius is closed at its upper end: in binary64, at
    the largest number [Math.random()] can return, [1 - 2^-53], the sum
    [random * 2 + 0.5] rounds to 2.5; the other quantities stay below the
    upper ends of their ranges. *)
Lemma upper_end_binary64 :
  let p := new_particle retina_sized (fun _ => 0x1.fffffffffffffp-1%float) 0 in
  p_r p = 2.5%float /\
  PrimFloat.ltb (p_o p) 0.8%float = true /\
  PrimFloat.ltb (p_vx p) 0.2%float = true /\ PrimFloat.ltb (p_vy p) 0.2%float = true /\
  PrimFloat.ltb (p_x p) 3600%float = true /\ PrimFloat.ltb (p_y p) 2000%float = true.
Proof. repeat split; vm_compute; reflexivity. Qed.
End InitFacts.

(** ** The lead form *)

Module LeadFormFacts.
Import LeadForm.
#[local] Open Scope string_scope.

(** The handler in closed form: it always completes normally, after one
    request. *)
Lemma submit_eq webhook now net f :
  submit webhook now net f =
  (Normal tt,
   mkEnv (match net (request_of webhook now f) with
          | Response status => mkForm blank false (Some (res_ok status))
          | Rejected => mkForm (state f) false (Some false)
          end)
         [request_of webhook now f]).
Proof.
  unfold submit, onSubmit, bind, try_catch_finally, fetch, setLoading, setOk,
    setState, request_of; cbn.
  destruct (net _); reflexivity.
Qed.

(** C3 (as amended).  After a submission whose request is answered, with
    a 2xx status or any other, all five fields are cleared; after one
    whose request throws, the fields are what they were. *)
Theorem fields_after_submission webhook now net f :
  state (form (snd (submit webhook now net f))) =
  match net (request_of webhook now f) with
  | Response _ => blank
  | Rejected => state f
  end.
Proof. rewrite submit_eq; cbn. destruct (net _); reflexivity. Qed.

(** C3, counterexample.  The form is filled in and [fetch] throws: the
    fields are not cleared. *)
Lemma fields_kept_on_network_error :
  state (form (snd (submit "https://hook.example" "2026-01-01T00:00:00.000Z"
                           (fun _ => Rejected) filled))) = state filled /\
  state (form (snd (submit "https://hook.example" "2026-01-01T00:00:00.000Z"
                           (fun _ => Rejected) filled))) <> blank.
Proof. split; [reflexivity | discriminate]. Qed.

(** C4.  Whatever the network answers, the handler completes without
    throwing, has sent exactly one request (the POST to the webhook, never
    repeated), and leaves [loading] false; the banner shown is the
    success message when the response status is in 200-299 and the
    failure message, which names the contact address, for any other
    status and for a thrown error. *)
Theorem submission_outcome webhook now net f :
  fst (submit webhook now net f) = Normal tt /\
  requests (snd (submit webhook now net f)) = [request_of webhook now f] /\
  loading (form (snd (submit webhook now net f))) = false /\
  banners (form (snd (submit webhook now net f))) =
    match net (request_of webhook now f) with
    | Response status =>
        if ((200 <=? status) && (status <=? 299))%Z then [thanks] else [went_wrong]
    | Rejected => [went_wrong]
    end /\
  contains went_wrong "hello@oceanside.ai" = true.
Proof.
  rewrite submit_eq; cbn [fst snd form requests loading].
  split; [reflexivity|]. split; [reflexivity|].
  split; [destruct (net _); reflexivity|].
  split; [|reflexivity].
  destruct (net _) as [status|]; [|reflexivity].
  unfold banners, res_ok; cbn [ok]. destruct (_ && _); reflexivity.
Qed.
End LeadFormFacts.

(** ** The theme hook *)

Module ThemeFacts.
Import Theme.
#[local] Open Scope string_scope.

Lemma initial_theme_nonempty ls : initial_theme ls <> "".
Proof.
  unfold initial_theme, getItem. destruct (ls !! "theme") as [s|]; [|discriminate].
  destruct (String.eqb_spec s ""); [discriminate | assumption].
Qed.

Lemma effect_settled p : theme p <> "" -> settled (effect p).
Proof.
  intros Hn. unfold effect. destruct (String.eqb_spec (theme p) ""); [contradiction|].
  split; cbn; [assumption | apply lookup_insert_eq].
Qed.

Lemma load_settled ls : settled (useTheme ls).
Proof. apply effect_settled, initial_theme_nonempty. Qed.

Lemma effect_theme p : theme (effect p) = theme p.
Proof. unfold effect. destruct (String.eqb _ _); reflexivity. Qed.

Lemma setTheme_settled t p : t <> "" -> settled p -> settled (setTheme t p).
Proof.
  intros Ht Hp. unfold setTheme. destruct (String.eqb t (theme p)); [assumption|].
  apply effect_settled. exact Ht.
Qed.

Lemma setTheme_theme t p : theme (setTheme t p) = t.
Proof.
  unfold setTheme. destruct (String.eqb_spec t (theme p)); [congruence|].
  apply effect_theme.
Qed.

Lemma onClick_settled p : settled p -> settled (onClick p).
Proof.
  intros Hp. unfold onClick. apply setTheme_settled; [|assumption].
  destruct (String.eqb _ _); discriminate.
Qed.

Lemma clicks_settled n : forall p, settled p -> settled (clicks n p).
Proof.
  induction n as [|n IH]; intros p Hp; cbn; [assumption | apply IH, onClick_settled, Hp].
Qed.

Lemma load_theme ls s : ls !! "theme" = Some s -> s <> "" -> theme (useTheme ls) = s.
Proof.
  intros Hs Hn. unfold useTheme. rewrite effect_theme. cbn. unfold initial_theme, getItem.
  rewrite Hs. destruct (String.eqb_spec s ""); [contradiction | reflexivity].
Qed.

Lemma onClick_changes p : theme (onClick p) <> theme p.
Proof.
  unfold onClick. rewrite setTheme_theme.
  destruct (String.eqb_spec (theme p) "dark") as [E|E]; [rewrite E; discriminate | congruence].
Qed.

(** C8.  On a page loaded over any storage and clicked any number of
    times: setting the theme to ["light"] and reloading reads back
    ["light"]; a page loaded over a storage without the key starts as
    ["dark"]; and every click on the toggle changes the theme and
    rewrites the stored value to the new theme, which a reload then reads
    back. *)
Theorem theme_round_trip (ls : gmap string string) (n : nat) :
  theme (reload (setTheme "light" (clicks n (useTheme ls)))) = "light" /\
  theme (useTheme (delete "theme" ls)) = "dark" /\
  theme (onClick (clicks n (useTheme ls))) <> theme (clicks n (useTheme ls)) /\
  localStorage (onClick (clicks n (useTheme ls))) !! "theme"
    = Some (theme (onClick (clicks n (useTheme ls)))) /\
  theme (reload (onClick (clicks n (useTheme ls)))) = theme (onClick (clicks n (useTheme ls))).
Proof.
  set (p := clicks n (useTheme ls)).
  assert (Hp : settled p) by apply clicks_settled, load_settled.
  assert (Hl : settled (setTheme "light" p))
    by (apply setTheme_settled; [discriminate | exact Hp]).
  assert (Hc : settled (onClick p)) by apply onClick_settled, Hp.
  split; [|split; [|split; [|split]]].
  - unfold reload. rewrite (load_theme _ (theme (setTheme "light" p))).
    + apply setTheme_theme.
    + apply Hl.
    + apply Hl.
  - unfold useTheme. rewrite effect_theme. cbn. unfold initial_theme, getItem.
    rewrite lookup_delete_eq. reflexivity.
  - apply onClick_changes.
  - apply Hc.
  - unfold reload. apply load_theme; apply Hc.
Qed.
End ThemeFacts.

(** * Further properties *)

(** ** The simulator *)

Module SimulatorMore.
Import RealField RealFacts VelocityFacts Reflection Samples InitFacts.
#[local] Open Scope R_scope.

(** X1.  Radius and opacity are drawn once: no number of frames changes
    them, in any arithmetic. *)
Theorem frames_keep_radius_opacity {A} `{Number A} (n : nat) (W Hh mx my : A)
    (p : Particle A) :
  p_r (frames n W Hh mx my p) = p_r p /\ p_o (frames n W Hh mx my p) = p_o p.
Proof.
  revert p. induction n as [|n IH]; intros p; [split; reflexivity|].
  cbn [frames]. destruct (IH (update W Hh mx my p)) as [Hr Ho].
  rewrite Hr, Ho, update_eq. split; reflexivity.
Qed.

(** X2.  The pointer only repels.  What one update adds to a velocity
    component before integrating it points away from the pointer, is zero
    when the point is level with the pointer on that axis (in particular
    when it sits on the pointer, where the 0.001 in [dist] keeps the
    division defined), and is smaller than 0.012. *)
Theorem repulsion_pushes_away (W Hh mx my : R) (p : Particle R) :
  let ix := p_x (update W Hh mx my p) - p_x p - p_vx p in
  let iy := p_y (update W Hh mx my p) - p_y p - p_vy p in
  Rabs ix < 12 / 1000 /\ Rabs iy < 12 / 1000 /\
  (p_x p < mx -> ix < 0) /\ (mx < p_x p -> 0 < ix) /\ (p_x p = mx -> ix = 0) /\
  (p_y p < my -> iy < 0) /\ (my < p_y p -> 0 < iy) /\ (p_y p = my -> iy = 0).
Proof.
  cbv zeta. rewrite update_R; cbv zeta; cbn [p_x p_y].
  pose proof (Rdist_pos (p_x p - mx) (p_y p - my)) as Hd.
  destruct (Raccel_abs _ _ Hd (abs_lt_dist_l (p_x p - mx) (p_y p - my))) as [Hx _].
  destruct (Raccel_abs _ _ Hd (abs_lt_dist_r (p_x p - mx) (p_y p - my))) as [Hy _].
  destruct (Raccel_sign (p_x p - mx) _ Hd) as (Hx0 & Hx1 & Hx2 & Hx3).
  destruct (Raccel_sign (p_y p - my) _ Hd) as (Hy0 & Hy1 & Hy2 & Hy3).
  set (ax := Raccel (p_x p - mx) _) in *. set (ay := Raccel (p_y p - my) _) in *.
  replace (p_x p + (p_vx p + ax) - p_x p - p_vx p) with ax by ring.
  replace (p_y p + (p_vy p + ay) - p_y p - p_vy p) with ay by ring.
  repeat split; try assumption; intros; try (apply Hx2; lra); try (apply Hx3; lra);
    try (apply Hy2; lra); try (apply Hy3; lra).
  - assert (0 <= ax) by (apply Hx0; lra). assert (ax <= 0) by (apply Hx1; lra). lra.
  - assert (0 <= ay) by (apply Hy0; lra). assert (ay <= 0) by (apply Hy1; lra). lra.
Qed.

Lemma init_lookup (c : Canvas) (rand : nat -> R) (i j : nat) :
  (j < particle_count R c)%nat ->
  init_particles c rand i !! j = Some (new_particle c rand (i + 6 * j)%nat).
Proof.
  intros Hj. unfold init_particles.
  destruct (fill_map c rand i (particle_count R c) !! j) as [p|] eqn:E.
  - apply fill_map_lookup in E. rewrite E. reflexivity.
  - apply lookup_ge_None in E. rewrite fill_map_length in E. lia.
Qed.

Lemma particle_count_ge (c : Canvas) : (60 <= particle_count R c)%nat.
Proof. unfold particle_count. rewrite count_R. lia. Qed.

Lemma update_step_abs W Hh mx my p :
  Rabs (p_x (update W Hh mx my p) - p_x p) < Rabs (p_vx p) + 12 / 1000 /\
  Rabs (p_y (update W Hh mx my p) - p_y p) < Rabs (p_vy p) + 12 / 1000.
Proof.
  rewrite update_R; cbv zeta; cbn [p_x p_y].
  pose proof (Rdist_pos (p_x p - mx) (p_y p - my)) as Hd.
  destruct (Raccel_abs _ _ Hd (abs_lt_dist_l (p_x p - mx) (p_y p - my))) as [Hx _].
  destruct (Raccel_abs _ _ Hd (abs_lt_dist_r (p_x p - mx) (p_y p - my))) as [Hy _].
  set (ax := Raccel (p_x p - mx) _) in *. set (ay := Raccel (p_y p - my) _) in *.
  replace (p_x p + (p_vx p + ax) - p_x p) with (p_vx p + ax) by ring.
  replace (p_y p + (p_vy p + ay) - p_y p) with (p_vy p + ay) by ring.
  pose proof (Rabs_triang (p_vx p) ax). pose proof (Rabs_triang (p_vy p) ay).
  split; lra.
Qed.

(** X3.  A point created by initialization, from random numbers in
    [0, 1), never gets fast: with the pointer held anywhere, after any
    number of frames each of its velocity components is at most 0.588 in
    size, and each frame moves it by less than 0.6 along each axis. *)
Theorem initial_points_stay_slow (c : Canvas) (rand : nat -> R) (i j n : nat)
    (W Hh mx my : R) (p : Particle R) :
  (forall k, 0 <= rand k < 1) ->
  init_particles c rand i !! j = Some p ->
  Rabs (p_vx (frames n W Hh mx my p)) <= 588 / 1000 /\
  Rabs (p_vy (frames n W Hh mx my p)) <= 588 / 1000 /\
  Rabs (p_x (frames (S n) W Hh mx my p) - p_x (frames n W Hh mx my p)) < 6 / 10 /\
  Rabs (p_y (frames (S n) W Hh mx my p) - p_y (frames n W Hh mx my p)) < 6 / 10.
Proof.
  intros Hrand Hl. apply fill_map_lookup in Hl.
  assert (Hv : Rabs (p_vx p) <= 588 / 1000 /\ Rabs (p_vy p) <= 588 / 1000).
  { subst p. unfold new_particle; cbn [p_vx p_vy].
    change (@dec R _ 5 1) with (5 / 10); change (@dec R _ 4 1) with (4 / 10).
    cbn [num_sub num_mul R_number].
    pose proof (Hrand (i + 6 * j + 2)%nat). pose proof (Hrand (i + 6 * j + 3)%nat).
    split; apply Rabs_le; lra. }
  destruct Hv as [Hvx Hvy].
  destruct (velocity_bounded (588 / 1000) n W Hh mx my p ltac:(lra) Hvx Hvy) as [Hx Hy].
  split; [exact Hx|]. split; [exact Hy|].
  rewrite frames_S.
  destruct (update_step_abs W Hh mx my (frames n W Hh mx my p)) as [Sx Sy].
  split; lra.
Qed.

Lemma initial_points_stay_slow_witness :
  Rabs (p_vx (frames 3 3600 2000 100 100 (new_particle retina_sized half (0 + 6 * 1)%nat)))
    <= 588 / 1000 /\
  Rabs (p_vy (frames 3 3600 2000 100 100 (new_particle retina_sized half (0 + 6 * 1)%nat)))
    <= 588 / 1000 /\
  Rabs (p_x (frames 4 3600 2000 100 100 (new_particle retina_sized half (0 + 6 * 1)%nat))
        - p_x (frames 3 3600 2000 100 100 (new_particle retina_sized half (0 + 6 * 1)%nat)))
    < 6 / 10 /\
  Rabs (p_y (frames 4 3600 2000 100 100 (new_particle retina_sized half (0 + 6 * 1)%nat))
        - p_y (frames 3 3600 2000 100 100 (new_particle retina_sized half (0 + 6 * 1)%nat)))
    < 6 / 10.
Proof.
  apply (initial_points_stay_slow retina_sized half 0 1 3 3600 2000 100 100).
  - intros k. unfold half. lra.
  - apply init_lookup. pose proof (particle_count_ge retina_sized). lia.
Defined.

(** X4.  The reflection cannot bring back a point that is at or beyond
    the left edge and not heading inside fast enough.  With the pointer
    held to the right of the left edge and of the point, a point that the
    next step leaves at or beyond that edge, also with its velocity damped
    to 2%, is strictly outside the canvas after every later frame. *)
Theorem left_edge_is_sticky (n : nat) (W Hh mx my : R) (p : Particle R) :
  0 < mx -> p_x p < mx ->
  p_x p + p_vx p <= 0 -> p_x p + 2 / 100 * p_vx p <= 0 ->
  p_x (frames (S n) W Hh mx my p) < 0.
Proof.
  intros Hm Hlt Hx Hv.
  destruct (Escape.left_edge_trap_frames n W Hh mx my p Hm Hlt Hx Hv) as [H _].
  exact H.
Qed.

Lemma left_edge_is_sticky_witness : p_x (frames (S 7) 100 100 50 50 grazing) < 0.
Proof.
  apply (left_edge_is_sticky 7 100 100 50 50 grazing); cbn [grazing p_x p_vx]; lra.
Defined.

(** X5.  Initialization never creates fewer than 60 points, and exactly
    60 whenever the CSS area of the canvas is below 61 * 18000, a canvas
    not laid out yet (area 0) included; on a drawing surface of width 0
    all of them are placed at x = 0. *)
Theorem small_canvas_gets_sixty (c : Canvas) (rand : nat -> R) (i : nat) :
  (60 <= length (init_particles c rand i))%nat /\
  ((clientWidth c * clientHeight c < 1098000)%Z ->
   length (init_particles c rand i) = 60%nat) /\
  (width c = 0%Z ->
   forall (j : nat) (p : Particle R), init_particles c rand i !! j = Some p -> p_x p = 0).
Proof.
  unfold init_particles at 1 2. rewrite fill_map_length.
  split; [apply particle_count_ge|]. split.
  - intros Ha. unfold particle_count. rewrite count_R.
    assert (clientWidth c * clientHeight c / 18000 < 61)%Z
      by (apply Z.div_lt_upper_bound; lia).
    lia.
  - intros Hw j p Hl. apply fill_map_lookup in Hl. subst p.
    unfold new_particle; cbn [p_x]. rewrite Hw. cbn [num_mul of_Z R_number]. lra.
Qed.
End SimulatorMore.

(** ** The life cycle of the canvas components *)

Section LifecycleMore.
Context {A : Type} `{Number A} `{EqDecision A}.
Variable devicePixelRatio : A.
Variable rand : nat -> A.
Variable wave_height : Z.

#[local] Abbreviation step' := (step rand wave_height).
#[local] Abbreviation run' := (run rand wave_height).
#[local] Abbreviation mount' := (mount devicePixelRatio rand wave_height).
#[local] Abbreviation effect' := (effect rand wave_height).
#[local] Abbreviation flush' := (flush rand wave_height).
#[local] Abbreviation reached' := (reached devicePixelRatio rand wave_height).

Ltac fields :=
  cbn [window mounted pos effect_run effect_deps pending raf dprs canvas particles rng log
       listeners frame_requests next_handle] in *.

Ltac world_cbv :=
  cbv beta iota zeta delta
    [effect cleanup resize logged with_window with_canvas with_pending loop draw
     request_frame requestAnimationFrame dpr_of onMove detached
     window mounted pos effect_run effect_deps pending raf dprs canvas particles rng log
     listeners frame_requests next_handle fst snd resized restarted].

(** What [new Array(n).fill(0).map(...)] holds at index [j]. *)
Lemma fill_map_at (c : Canvas) (i n j : nat) :
  (j < n)%nat ->
  fill_map c rand i n !! j = Some (new_particle c rand (i + 6 * j)%nat).
Proof.
  intros Hj.
  destruct (fill_map c rand i n !! j) as [q|] eqn:Hq.
  - apply InitFacts.fill_map_lookup in Hq. rewrite Hq. reflexivity.
  - apply lookup_ge_None in Hq. rewrite InitFacts.fill_map_length in Hq. lia.
Qed.

(** What running the effect still to run leaves of a running
    [ParticleField]: [pos] stays, nothing is left to run, and the
    dependencies are those of the latest render. *)
Lemma flush_view (w : World A) :
  running w ->
  pos (flush' ParticleField w) = pos w /\
  pending (flush' ParticleField w) = None /\
  effect_deps (flush' ParticleField w) = default (effect_deps w) (pending w).
Proof.
  intros Hr. destruct (pending w) as [[d m]|] eqn:Hp.
  - destruct (flush_running rand wave_height d m w Hr Hp) as (h & _ & _ & ->).
    repeat split; reflexivity.
  - rewrite (flush_none rand wave_height _ _ Hp). rewrite Hp. repeat split; reflexivity.
Qed.

(** The events between a mouse move and the render made for it leave a
    running [ParticleField] running, with the same [pos] and the same
    dependencies of the latest render. *)
Lemma step_between (w : World A) (ev : Event) :
  running w -> no_move_or_render ev = true ->
  running (step' ParticleField w ev) /\
  pos (step' ParticleField w ev) = pos w /\
  default (effect_deps (step' ParticleField w ev)) (pending (step' ParticleField w ev))
  = default (effect_deps w) (pending w).
Proof.
  intros Hr Hev.
  assert (Hr' : running (step' ParticleField w ev)).
  { destruct (step_running rand wave_height w ev Hr) as [Hr' | (Hs & _)]; [exact Hr'|].
    destruct ev; try discriminate.
    - rewrite (resize_running rand wave_height w Hr) in Hs. discriminate.
    - destruct (frame_running rand wave_height w Hr) as (h & _ & He).
      rewrite He in Hs. discriminate.
    - rewrite (effects_running rand wave_height w Hr) in Hs.
      pose proof (flush_keeps_running rand wave_height w Hr) as (Hm & _). congruence.
    - rewrite (layout_running rand wave_height _ _ w Hr) in Hs. discriminate. }
  split; [exact Hr'|].
  destruct ev as [x y | | | | ratio | | cw ch]; try discriminate.
  - rewrite (resize_running rand wave_height w Hr). split; reflexivity.
  - destruct (frame_running rand wave_height w Hr) as (h & _ & ->). split; reflexivity.
  - rewrite (effects_running rand wave_height w Hr).
    destruct (flush_view w Hr) as (Hpos & Hpend & Hdeps).
    rewrite Hpos, Hpend, Hdeps. split; reflexivity.
  - rewrite (layout_running rand wave_height _ _ w Hr). split; reflexivity.
Qed.

Lemma run_between (evs : list Event) : forall w : World A,
  running w -> Forall (fun ev => no_move_or_render ev = true) evs ->
  running (run' ParticleField w evs) /\
  pos (run' ParticleField w evs) = pos w /\
  default (effect_deps (run' ParticleField w evs)) (pending (run' ParticleField w evs))
  = default (effect_deps w) (pending w).
Proof.
  induction evs as [|ev evs IH]; intros w Hr Hall.
  - split; [exact Hr|]. split; reflexivity.
  - inversion Hall as [|? ? Hev Hrest]; subst.
    destruct (step_between w ev Hr Hev) as (Hr1 & Hp1 & Hd1).
    destruct (IH _ Hr1 Hrest) as (Hr2 & Hp2 & Hd2).
    unfold run in *. cbn [fold_left]. rewrite Hp2, Hd2, Hp1, Hd1.
    split; [exact Hr2|]. split; reflexivity.
Qed.

(** The events in which React does nothing leave a running
    [ParticleField] running, with the same effect still to run. *)
Lemma step_waiting (w : World A) (ev : Event) :
  running w -> no_effects ev = true ->
  running (step' ParticleField w ev) /\
  pending (step' ParticleField w ev) = pending w.
Proof.
  intros Hr Hev.
  destruct ev as [x y | | | | ratio | | cw ch]; try discriminate.
  - rewrite (move_running rand wave_height x y w Hr).
    destruct Hr as (_ & h & Hraf & Hd & Hwin).
    split; [|reflexivity]. unfold running; fields. split; [reflexivity|].
    exists h. repeat split; assumption.
  - rewrite (resize_running rand wave_height w Hr).
    destruct Hr as (_ & h & Hraf & Hd & Hwin).
    split; [|reflexivity]. unfold running; fields. split; [reflexivity|].
    exists h. repeat split; assumption.
  - destruct (frame_running rand wave_height w Hr) as (h & _ & ->).
    destruct Hr as (_ & _ & _ & Hd & _).
    split; [|reflexivity]. unfold running; fields. split; [reflexivity|].
    exists (S h). split; [apply lookup_insert_eq|]. split; [exact Hd | reflexivity].
  - rewrite (layout_running rand wave_height _ _ w Hr).
    destruct Hr as (_ & h & Hraf & Hd & Hwin).
    split; [|reflexivity]. unfold running; fields. split; [reflexivity|].
    exists h. repeat split; assumption.
Qed.

Lemma run_waiting (evs : list Event) : forall w : World A,
  running w -> Forall (fun ev => no_effects ev = true) evs ->
  running (run' ParticleField w evs) /\
  pending (run' ParticleField w evs) = pending w.
Proof.
  induction evs as [|ev evs IH]; intros w Hr Hall; [split; [exact Hr | reflexivity]|].
  inversion Hall as [|? ? Hev Hrest]; subst.
  destruct (step_waiting w ev Hr Hev) as (Hr1 & Hp1).
  destruct (IH _ Hr1 Hrest) as (Hr2 & Hp2).
  unfold run in *. cbn [fold_left]. rewrite Hp2, Hp1. split; [exact Hr2 | reflexivity].
Qed.


(** X6.  At every moment of the life of a [ParticleField], whatever
    events came before, the browser holds exactly one frame request and two
    listeners of it while it is mounted, and none of either once it is
    unmounted. *)
Theorem one_frame_pending (cv : Canvas) (evs : list Event) :
  length (frame_requests (window (run' ParticleField (mount' ParticleField cv) evs)))
    = (if mounted (run' ParticleField (mount' ParticleField cv) evs) then 1 else 0)%nat /\
  length (listeners (window (run' ParticleField (mount' ParticleField cv) evs)))
    = (if mounted (run' ParticleField (mount' ParticleField cv) evs) then 2 else 0)%nat.
Proof.
  destruct (reached' cv evs) as [(Hm & h & _ & _ & Hw) | (Hm & Hl & Hf)].
  - rewrite Hm, Hw. split; reflexivity.
  - rewrite Hm, Hl, Hf. split; reflexivity.
Qed.

(** X7.  A resize of the window never re-creates the particles, also when
    the layout has given the canvas another CSS size, for which
    initialization would choose another number of particles: it leaves
    [particles.current], the random numbers drawn, the run of the effect
    and the pending frame request as they are, and only sets the size of
    the drawing surface again, from the CSS size the canvas has at that
    moment and the pixel ratio the running effect has captured (nothing
    at all once unmounted). *)
Theorem resize_keeps_particles (cv : Canvas) (evs : list Event) (cw ch : Z) :
  let w := run' ParticleField (mount' ParticleField cv) evs in
  let w' := step' ParticleField (step' ParticleField w (Layout cw ch)) WindowResize in
  particles w' = particles w /\ rng w' = rng w /\ effect_run w' = effect_run w /\
  window w' = window w /\
  canvas w' = (if mounted w
               then mkCanvas cw ch
                             (trunc (num_mul (of_Z cw) (fst (effect_deps w))))
                             (trunc (num_mul (of_Z ch) (fst (effect_deps w))))
               else canvas w).
Proof.
  intros w w'. unfold w'.
  destruct (reached' cv evs) as [Hr | Hs]; fold w in Hr || fold w in Hs.
  - assert (Hr1 : running (step' ParticleField w (Layout cw ch))).
    { destruct (step_running rand wave_height w (Layout cw ch) Hr) as [Hr1 | (Hs1 & _)];
        [exact Hr1|].
      rewrite (layout_running rand wave_height cw ch w Hr) in Hs1. discriminate. }
    rewrite (resize_running rand wave_height _ Hr1).
    rewrite (layout_running rand wave_height cw ch w Hr).
    destruct Hr as (Hm & _). rewrite Hm. fields.
    repeat split; reflexivity.
  - rewrite !(step_stopped rand wave_height w _ Hs). destruct Hs as (Hm & _). rewrite Hm.
    repeat split; reflexivity.
Qed.

(** X8.  The effect restarts only when one of its dependencies has
    changed.  With no effect left to run, a mouse move that delivers the
    coordinates the running effect has captured, followed by a render in
    which [dpr] is what the running effect has captured and by the
    effects of that render, restarts nothing: particles, random numbers
    drawn, run of the effect, canvas and everything held by the browser
    stay as they are.  After the same mouse move, a render in which [dpr]
    is another number makes the effect run again. *)
Theorem same_position_keeps_particles (cv : Canvas) (evs : list Event) (ratio : A) :
  let w := run' ParticleField (mount' ParticleField cv) evs in
  let w1 := step' ParticleField w
              (MouseMove (fst (snd (effect_deps w))) (snd (snd (effect_deps w)))) in
  let w' := step' ParticleField (step' ParticleField w1 (Render ratio)) Effects in
  (pending w = None -> Math_min ratio (dec 2 0) = fst (effect_deps w) ->
   particles w' = particles w /\ rng w' = rng w /\ effect_run w' = effect_run w /\
   canvas w' = canvas w /\ window w' = window w) /\
  (mounted w = true -> pending w = None ->
   Math_min ratio (dec 2 0) <> fst (effect_deps w) ->
   effect_run w' = S (effect_run w)).
Proof.
  intros w w1 w'. unfold w', w1.
  destruct (reached' cv evs) as [Hr | Hs]; fold w in Hr || fold w in Hs.
  - rewrite (move_running rand wave_height _ _ w Hr).
    set (w2 := mkWorld _ _ _ _ _ _ _ _ _ _ _ _).
    assert (Hr2 : running w2).
    { destruct Hr as (_ & h & Hraf & Hd & Hwin).
      unfold running, w2; fields. split; [reflexivity|]. exists h.
      repeat split; assumption. }
    split.
    + intros Hp Hd.
      assert (Hp2 : pending w2 = None) by exact Hp.
      rewrite (render_running rand wave_height ratio w2 Hr2).
      rewrite (flush_none rand wave_height _ _ Hp2).
      destruct (decide _) as [_|Hn].
      * rewrite Hp2.
        assert (Hsame : with_pending w2 None = w2)
          by (unfold w2, with_pending; fields; rewrite Hp; reflexivity).
        rewrite Hsame, (effects_running rand wave_height w2 Hr2).
        rewrite (flush_none rand wave_height _ _ Hp2).
        repeat split; reflexivity.
      * exfalso. apply Hn. unfold w2; fields. rewrite Hd.
        destruct (effect_deps w) as [d0 [x0 y0]]. reflexivity.
    + intros _ Hp Hd.
      assert (Hp2 : pending w2 = None) by exact Hp.
      rewrite (render_running rand wave_height ratio w2 Hr2).
      rewrite (flush_none rand wave_height _ _ Hp2).
      destruct (decide _) as [He|_].
      * exfalso. apply Hd. unfold w2 in He; fields. rewrite <- He. reflexivity.
      * set (w3 := with_pending w2 _).
        assert (Hr3 : running w3) by (apply running_with_pending, Hr2).
        rewrite (effects_running rand wave_height w3 Hr3).
        destruct (flush_running rand wave_height _ _ w3 Hr3 eq_refl) as (h & _ & _ & ->).
        reflexivity.
  - rewrite !(step_stopped rand wave_height w _ Hs). split.
    + intros _ _. repeat split; reflexivity.
    + intros Hm. destruct Hs as (Hs & _). rewrite Hm in Hs. discriminate.
Qed.

(** X9.  An animation frame of a mounted [ParticleField] applies the
    update exactly once to every particle, in place and in order, with the
    pointer at the mouse position the running effect has captured, scaled
    by the pixel ratio it has captured; it draws no random number and
    keeps the number of particles.  Once the component is unmounted a
    frame changes nothing. *)
Theorem frame_updates_every_particle (cv : Canvas) (evs : list Event) :
  let w := run' ParticleField (mount' ParticleField cv) evs in
  let w' := step' ParticleField w AnimationFrame in
  particles w' =
    (if mounted w
     then map (update (of_Z (width (canvas w))) (of_Z (height (canvas w)))
                      (num_mul (of_Z (fst (snd (effect_deps w)))) (fst (effect_deps w)))
                      (num_mul (of_Z (snd (snd (effect_deps w)))) (fst (effect_deps w))))
              (particles w)
     else particles w) /\
  length (particles w') = length (particles w) /\
  rng w' = rng w /\ canvas w' = canvas w /\ pos w' = pos w.
Proof.
  intros w w'. unfold w'.
  destruct (reached' cv evs) as [Hr | Hs]; fold w in Hr || fold w in Hs.
  - destruct (frame_running rand wave_height w Hr) as (h & _ & ->).
    destruct Hr as (Hm & _). rewrite Hm.
    cbn [particles rng canvas pos]. rewrite length_map. repeat split; reflexivity.
  - rewrite (step_stopped rand wave_height w _ Hs). destruct Hs as (Hm & _). rewrite Hm.
    repeat split; reflexivity.
Qed.

Lemma particle_count_min (c : Canvas) : (60 <= particle_count A c)%nat.
Proof. unfold particle_count. lia. Qed.

(** Running the effect still to run leaves the particles as they are, or
    makes them anew, as many as the CSS size of the canvas asks for. *)
Lemma flush_population (w : World A) :
  running w ->
  (effect_run (flush' ParticleField w) = effect_run w /\
   length (particles (flush' ParticleField w)) = length (particles w) /\
   rng (flush' ParticleField w) = rng w) \/
  (effect_run (flush' ParticleField w) = S (effect_run w) /\
   length (particles (flush' ParticleField w)) = particle_count A (canvas w) /\
   rng (flush' ParticleField w) = (rng w + 6 * particle_count A (canvas w))%nat).
Proof.
  intros Hr. destruct (pending w) as [[d m]|] eqn:Hp.
  - right. destruct (flush_running rand wave_height d m w Hr Hp) as (h & _ & _ & ->).
    fields. unfold restarted. rewrite length_map. unfold init_particles.
    rewrite InitFacts.fill_map_length. repeat split; reflexivity.
  - left. rewrite (flush_none rand wave_height _ _ Hp). repeat split; reflexivity.
Qed.

(** One event either leaves the particles in number and the random
    numbers drawn as they are, or runs the effect again. *)
Lemma population_step (w : World A) (ev : Event) :
  running w \/ stopped w ->
  (effect_run (step' ParticleField w ev) = effect_run w /\
   length (particles (step' ParticleField w ev)) = length (particles w) /\
   rng (step' ParticleField w ev) = rng w) \/
  (effect_run (step' ParticleField w ev) = S (effect_run w) /\
   length (particles (step' ParticleField w ev)) = particle_count A (canvas w) /\
   rng (step' ParticleField w ev) = (rng w + 6 * particle_count A (canvas w))%nat).
Proof.
  intros [Hr | Hs].
  - destruct ev as [x y | | | | ratio | | cw ch].
    + left. rewrite (move_running rand wave_height x y w Hr). repeat split; reflexivity.
    + left. rewrite (resize_running rand wave_height w Hr). repeat split; reflexivity.
    + left. destruct (frame_running rand wave_height w Hr) as (h & _ & ->).
      fields. rewrite length_map. repeat split; reflexivity.
    + destruct (unmount_running rand wave_height w Hr) as (h & ->). fields.
      apply flush_population, Hr.
    + rewrite (render_running rand wave_height ratio w Hr).
      unfold with_pending; fields. apply flush_population, Hr.
    + rewrite (effects_running rand wave_height w Hr). apply flush_population, Hr.
    + left. rewrite (layout_running rand wave_height cw ch w Hr). repeat split; reflexivity.
  - left. rewrite (step_stopped rand wave_height w ev Hs). repeat split; reflexivity.
Qed.

Lemma population_reached (cv : Canvas) (evs : list Event) :
  (60 <= length (particles (run' ParticleField (mount' ParticleField cv) evs)))%nat.
Proof.
  assert (Hgen : forall w : World A,
             running w \/ stopped w -> (60 <= length (particles w))%nat ->
             (60 <= length (particles (run' ParticleField w evs)))%nat).
  { induction evs as [|ev evs' IH]; intros w Hw Hl; [exact Hl|].
    unfold run in *. cbn [fold_left]. apply IH.
    - destruct Hw as [Hr | Hs].
      + apply step_running, Hr.
      + rewrite (step_stopped rand wave_height w ev Hs). right. exact Hs.
    - destruct (population_step w ev Hw) as [(_ & Hsame & _) | (_ & Hnew & _)].
      + rewrite Hsame. exact Hl.
      + rewrite Hnew. apply particle_count_min. }
  apply Hgen.
  - left. apply mount_running.
  - unfold mount. rewrite addEventListener_new by (cbn; apply not_elem_of_nil).
    rewrite effect_ParticleField
      by (cbn; intros Hin; apply list_elem_of_singleton in Hin; discriminate).
    fields. unfold restarted. rewrite length_map. unfold init_particles.
    rewrite InitFacts.fill_map_length. apply particle_count_min.
Qed.

(** X10.  Whatever happens to a [ParticleField], mounted or not, it has at
    least 60 particles, and an event changes their number or draws random
    numbers only if it makes the effect run again: the number is then the
    one initialization chooses for the CSS size the canvas has at that
    moment, and six random numbers are drawn per particle. *)
Theorem particle_population (cv : Canvas) (evs : list Event) (ev : Event) :
  let w := run' ParticleField (mount' ParticleField cv) evs in
  let w' := step' ParticleField w ev in
  (60 <= length (particles w))%nat /\
  (effect_run w' = effect_run w ->
   length (particles w') = length (particles w) /\ rng w' = rng w) /\
  (effect_run w' <> effect_run w ->
   effect_run w' = S (effect_run w) /\
   length (particles w')
     = Z.to_nat (Z.max 60 (Math_floor (num_div (num_mul (of_Z (clientWidth (canvas w)))
                                                        (of_Z (clientHeight (canvas w))))
                                               (dec 18000 0)))) /\
   rng w' = (rng w + 6 * length (particles w'))%nat).
Proof.
  intros w w'. split; [apply population_reached|].
  destruct (population_step w ev (reached' cv evs))
    as [(Hk & Hl & Hg) | (Hk & Hl & Hg)]; fold w' in Hk, Hl, Hg.
  - split; [intros _; split; assumption | intros Hn; contradiction].
  - split; [intros He; rewrite Hk in He; lia|].
    intros _. split; [exact Hk|]. split; [exact Hl|]. rewrite Hg, Hl. reflexivity.
Qed.

(** *** [SoundWaves]: resize listeners pile up *)

Lemma resize_listeners_S (k : nat) :
  resize_listeners (S k) = resize_listeners k ++ [(resize_event, Resize k)].
Proof. unfold resize_listeners. rewrite seq_S, map_app. reflexivity. Qed.

Lemma resize_listeners_fresh (k : nat) :
  (resize_event, Resize k) ∉ (mousemove, OnMove) :: resize_listeners k.
Proof.
  intros Hin. apply elem_of_cons in Hin. destruct Hin as [Hin | Hin]; [discriminate|].
  unfold resize_listeners in Hin. apply list_elem_of_fmap in Hin.
  destruct Hin as (j & Hj & Hin). inversion Hj; subst j.
  apply list_elem_of_In, in_seq in Hin. lia.
Qed.

Lemma filter_resize_listeners (k : nat) :
  filter (fun l => l <> (mousemove, OnMove)) (resize_listeners k) = resize_listeners k.
Proof.
  unfold resize_listeners. induction (seq 0 k) as [|j js IH]; [reflexivity|].
  cbn [map]. rewrite filter_cons. destruct (decide _) as [_|Hn].
  - f_equal. exact IH.
  - exfalso. apply Hn. discriminate.
Qed.

(** A mouse move runs none of the resize listeners. *)
Lemma fire_skips_resize c e (ls : list (EventType * Callback)) (w : World A) :
  Forall (fun l => fst l = resize_event) ls ->
  fold_left (fun w l => if decide (fst l = mousemove)
                        then call wave_height c e (snd l) w else w) ls w = w.
Proof.
  intros Hall. revert w. induction Hall as [|l ls Hl _ IH]; intros w; [reflexivity|].
  cbn [fold_left]. destruct (decide (fst l = mousemove)) as [He|_]; [congruence | apply IH].
Qed.

Lemma resize_listeners_all (k : nat) :
  Forall (fun l : EventType * Callback => fst l = resize_event) (resize_listeners k).
Proof.
  unfold resize_listeners. apply Forall_forall. intros l Hl.
  apply list_elem_of_fmap in Hl. destruct Hl as (j & -> & _). reflexivity.
Qed.

(** A window resize runs every resize listener, and each run only sets
    the surface size again and is logged. *)
Lemma fire_all_resize (js : list nat) : forall w : World A,
  exists cv' : Canvas,
    fold_left (fun w l => if decide (fst l = resize_event)
                          then call wave_height SoundWaves (0, 0) (snd l) w else w)
              (map (fun j => (resize_event, Resize j)) js) w
    = mkWorld (window w) (mounted w) (pos w) (effect_run w) (effect_deps w) (pending w)
              (raf w) (dprs w) cv' (particles w) (rng w) (log w ++ map Resize js).
Proof.
  induction js as [|j js IH]; intros w.
  - exists (canvas w). cbn. rewrite app_nil_r. destruct w; reflexivity.
  - cbn [map fold_left fst snd call].
    destruct (decide (resize_event = resize_event)) as [_|Hn]; [|contradiction].
    destruct (IH (resize wave_height SoundWaves j w)) as (cv' & ->).
    exists cv'. world_cbv. rewrite <- app_assoc. reflexivity.
Qed.

Lemma mount_waving cv : waving (mount' SoundWaves cv).
Proof.
  unfold mount. rewrite addEventListener_new by (cbn; apply not_elem_of_nil).
  rewrite effect_SoundWaves
    by (cbn; intros Hin; apply list_elem_of_singleton in Hin; discriminate).
  unfold waving; world_cbv. split; [reflexivity|].
  exists 1%nat. split; [apply lookup_insert_eq | reflexivity].
Qed.

(** Running the effect still to run adds a resize listener and removes
    none. *)
Lemma flush_waving (w : World A) : waving w -> waving (flush' SoundWaves w).
Proof.
  intros (Hm & h & Hraf & Hw).
  destruct w as [win m ps k dp pd r ds cv pts g l]. fields. subst win m.
  unfold flush; fields. destruct pd as [[d m]|].
  - unfold cleanup, with_window, with_pending; fields. rewrite Hraf, cancel_only.
    rewrite effect_SoundWaves by (fields; apply resize_listeners_fresh).
    unfold waving; fields. split; [reflexivity|].
    exists (S h). split; [apply lookup_insert_eq|].
    rewrite (resize_listeners_S (S k)). reflexivity.
  - unfold waving; fields. split; [reflexivity|].
    exists h. split; [exact Hraf | reflexivity].
Qed.

Lemma step_waving (w : World A) ev :
  waving w -> waving (step' SoundWaves w ev) \/ waved (step' SoundWaves w ev).
Proof.
  intros Hwv. destruct ev as [x y | | | | ratio | | cw ch].
  - (* MouseMove *)
    destruct Hwv as (Hm & h & Hraf & Hw).
    destruct w as [win m ps k dp pd r ds cv pts g l]. fields. subst win m.
    left. unfold step, fire; fields. cbn [fold_left fst snd call].
    destruct (decide (mousemove = mousemove)) as [_|Hn]; [|contradiction].
    rewrite fire_skips_resize by apply resize_listeners_all.
    unfold onMove, logged; fields.
    unfold waving; fields. split; [reflexivity|].
    exists h. split; [exact Hraf | reflexivity].
  - (* WindowResize *)
    destruct Hwv as (Hm & h & Hraf & Hw).
    destruct w as [win m ps k dp pd r ds cv pts g l]. fields. subst win m.
    left. unfold step, fire; fields. cbn [fold_left fst].
    destruct (decide (mousemove = resize_event)) as [Hn|_]; [discriminate|].
    unfold resize_listeners.
    match goal with |- context [fold_left _ (map _ ?js) ?w0] =>
      destruct (fire_all_resize js w0) as (cv' & ->) end.
    unfold waving; fields. split; [reflexivity|].
    exists h. split; [exact Hraf | reflexivity].
  - (* AnimationFrame *)
    destruct Hwv as (Hm & h & Hraf & Hw).
    destruct w as [win m ps k dp pd r ds cv pts g l]. fields. subst win m.
    left. unfold step, with_window; fields; cbn [fold_left snd call].
    unfold waving; world_cbv. split; [reflexivity|].
    exists (S h). split; [apply lookup_insert_eq | reflexivity].
  - (* Unmount *)
    right. pose proof (flush_waving w Hwv) as (Hm1 & h & Hraf & Hw).
    destruct Hwv as (Hm & _). unfold step. rewrite Hm.
    destruct (flush' SoundWaves w) as [win m ps k dp pd r ds cv pts g l].
    fields. subst win m.
    unfold cleanup, with_window; fields.
    rewrite Hraf, cancel_only.
    unfold removeEventListener; fields. rewrite filter_cons.
    destruct (decide ((mousemove, OnMove) <> (mousemove, OnMove))) as [Hn|_];
      [exfalso; apply Hn; reflexivity|].
    rewrite filter_resize_listeners.
    unfold waved; fields. repeat split; reflexivity.
  - (* Render *)
    left. pose proof (flush_waving w Hwv) as Hf.
    destruct Hwv as (Hm & _). unfold step. rewrite Hm. unfold render.
    destruct (decide _); [exact Hf|]. exact Hf.
  - (* Effects *)
    left. pose proof (flush_waving w Hwv) as Hf.
    destruct Hwv as (Hm & _). unfold step. rewrite Hm. exact Hf.
  - (* Layout *)
    destruct Hwv as (Hm & h & Hraf & Hw).
    destruct w as [win m ps k dp pd r ds cv pts g l]. fields. subst win m.
    left. unfold step; fields.
    unfold waving, with_canvas; fields. split; [reflexivity|].
    exists h. split; [exact Hraf | reflexivity].
Qed.

Lemma step_waved (w : World A) ev :
  waved w -> waved (step' SoundWaves w ev).
Proof.
  intros (Hm & Hl & Hf).
  destruct w as [[ls fr n] m ps k dp pd r ds cv pts g l]. fields. subst ls fr m.
  destruct ev as [x y | | | | ratio | | cw ch].
  - unfold step, fire; fields.
    rewrite fire_skips_resize by apply resize_listeners_all.
    unfold waved; fields. repeat split; reflexivity.
  - unfold step, fire; fields. unfold resize_listeners.
    match goal with |- context [fold_left _ (map _ ?js) ?w0] =>
      destruct (fire_all_resize js w0) as (cv' & ->) end.
    unfold waved; fields. repeat split; reflexivity.
  - cbn. unfold waved; fields. repeat split; reflexivity.
  - cbn. unfold waved; fields. repeat split; reflexivity.
  - cbn. unfold waved; fields. repeat split; reflexivity.
  - cbn. unfold waved; fields. repeat split; reflexivity.
  - cbn. unfold waved; fields. repeat split; reflexivity.
Qed.

Lemma waving_reached (cv : Canvas) (evs : list Event) :
  waving (run' SoundWaves (mount' SoundWaves cv) evs) \/
  waved (run' SoundWaves (mount' SoundWaves cv) evs).
Proof.
  assert (Hgen : forall w : World A, waving w \/ waved w ->
            waving (run' SoundWaves w evs) \/ waved (run' SoundWaves w evs)).
  { induction evs as [|ev evs' IH]; intros w Hw; [exact Hw|].
    unfold run in *. cbn [fold_left]. apply IH. destruct Hw as [Hr | Hs].
    - apply step_waving, Hr.
    - right. apply step_waved, Hs. }
  apply Hgen. left. apply mount_waving.
Qed.

(** X12.  [SoundWaves] never removes a resize listener.  After any
    history the browser holds one resize listener for every run of its
    effect, that is one more for every render in which the pointer or the
    pixel ratio had changed and whose effects have run, while it is
    mounted and after it is unmounted alike; and every resize of the
    window runs all of them. *)
Theorem soundwaves_listeners_pile_up (cv : Canvas) (evs : list Event) :
  let w := run' SoundWaves (mount' SoundWaves cv) evs in
  listeners (window w)
    = (if mounted w then [(mousemove, OnMove)] else [])
      ++ resize_listeners (S (effect_run w)) /\
  log (step' SoundWaves w WindowResize)
    = log w ++ map Resize (seq 0 (S (effect_run w))).
Proof.
  intros w.
  assert (Hl : listeners (window w)
               = (if mounted w then [(mousemove, OnMove)] else [])
                 ++ resize_listeners (S (effect_run w))).
  { destruct (waving_reached cv evs) as [(Hm & h & _ & Hw) | (Hm & Hl & _)];
      fold w in Hm; rewrite Hm.
    - fold w in Hw. rewrite Hw. reflexivity.
    - exact Hl. }
  split; [exact Hl|].
  unfold step, fire. rewrite Hl.
  destruct (mounted w).
  - cbn [app fold_left fst].
    destruct (decide (mousemove = resize_event)) as [Hn|_]; [discriminate|].
    unfold resize_listeners.
    match goal with |- context [fold_left _ (map _ ?js) ?w0] =>
      destruct (fire_all_resize js w0) as (cv' & ->) end.
    reflexivity.
  - cbn [app]. unfold resize_listeners.
    match goal with |- context [fold_left _ (map _ ?js) ?w0] =>
      destruct (fire_all_resize js w0) as (cv' & ->) end.
    reflexivity.
Qed.

Lemma waved_step_log (w : World A) ev :
  waved w ->
  exists l : list Callback,
    log (step' SoundWaves w ev) = log w ++ l /\
    Forall (fun cb => exists j, cb = Resize j) l.
Proof.
  intros (Hm & Hl & Hf).
  destruct w as [[ls fr n] m ps k dp pd r ds cv pts g l]. fields. subst ls fr m.
  destruct ev as [x y | | | | ratio | | cw ch].
  - exists []. unfold step, fire; fields.
    rewrite fire_skips_resize by apply resize_listeners_all.
    cbn [log]. rewrite app_nil_r. split; [reflexivity | constructor].
  - exists (map Resize (seq 0 (S k))). unfold step, fire; fields.
    unfold resize_listeners.
    match goal with |- context [fold_left _ (map _ ?js) ?w0] =>
      destruct (fire_all_resize js w0) as (cv' & ->) end.
    cbn [log]. split; [reflexivity|].
    apply Forall_forall. intros cb Hcb. apply list_elem_of_fmap in Hcb.
    destruct Hcb as (j & -> & _). exists j. reflexivity.
  - exists []. cbn. rewrite app_nil_r. split; [reflexivity | constructor].
  - exists []. cbn. rewrite app_nil_r. split; [reflexivity | constructor].
  - exists []. cbn. rewrite app_nil_r. split; [reflexivity | constructor].
  - exists []. cbn. rewrite app_nil_r. split; [reflexivity | constructor].
  - exists []. cbn. rewrite app_nil_r. split; [reflexivity | constructor].
Qed.

(** X13.  [SoundWaves] does stop drawing.  Once it is unmounted, after
    any history, no frame request of it is pending and none is made again:
    whatever happens later, the only callbacks of the component that still
    run are its left-over resize listeners, never [draw] or [onMove]. *)
Theorem soundwaves_stops_drawing (cv : Canvas) (evs later : list Event) :
  let w := step' SoundWaves (run' SoundWaves (mount' SoundWaves cv) evs) Unmount in
  frame_requests (window (run' SoundWaves w later)) = [] /\
  exists l : list Callback,
    log (run' SoundWaves w later) = log w ++ l /\
    Forall (fun cb => exists j, cb = Resize j) l.
Proof.
  intros w.
  assert (Hw : waved w).
  { unfold w. destruct (waving_reached cv evs) as [Hr | Hs].
    - destruct (step_waving _ Unmount Hr) as [(Hm' & _) | Hs']; [|exact Hs'].
      exfalso. revert Hm'. destruct Hr as (Hm & _). unfold step. rewrite Hm. discriminate.
    - apply step_waved, Hs. }
  clearbody w. revert w Hw. induction later as [|ev later IH]; intros w Hw.
  - split; [apply Hw|]. exists []. rewrite app_nil_r. split; [reflexivity | constructor].
  - unfold run in *. cbn [fold_left].
    destruct (IH _ (step_waved w ev Hw)) as (Hf & l2 & Hl2 & Hall2).
    split; [exact Hf|].
    destruct (waved_step_log w ev Hw) as (l1 & Hl1 & Hall1).
    exists (l1 ++ l2). rewrite Hl2, Hl1, app_assoc. split; [reflexivity|].
    apply Forall_app. split; assumption.
Qed.
End LifecycleMore.


Lemma same_position_witness :
  let rand := fun _ : nat => 0.5%float in
  let w := run rand 360 ParticleField
               (mount 2%float rand 360 ParticleField (mkCanvas 300 200 0 0))
               [AnimationFrame] in
  let w' := step rand 360 ParticleField
              (step rand 360 ParticleField
                 (step rand 360 ParticleField w
                       (MouseMove (fst (snd (effect_deps w))) (snd (snd (effect_deps w)))))
                 (Render 3%float))
              Effects in
  pending w = None /\
  Math_min 3%float (dec 2 0) = fst (effect_deps w) /\
  particles w' = particles w /\ rng w' = rng w /\ effect_run w' = effect_run w /\
  canvas w' = canvas w /\ window w' = window w.
Proof.
  intros rand w w'.
  assert (Hp : pending w = None) by (vm_compute; reflexivity).
  assert (Hd : Math_min 3%float (dec 2 0) = fst (effect_deps w))
    by (vm_compute; reflexivity).
  split; [exact Hp|]. split; [exact Hd|].
  exact (proj1 (same_position_keeps_particles 2%float rand 360
                  (mkCanvas 300 200 0 0) [AnimationFrame] 3%float) Hp Hd).
Defined.

(** ** Typing into the lead form *)

Module LeadInputsFacts.
Import LeadForm LeadFormFacts LeadInputs.
#[local] Open Scope string_scope.

Lemma get_spread_same fld v s : get fld (spread_with fld v s) = v.
Proof. destruct fld; reflexivity. Qed.

Lemma get_spread_other fld fld' v s :
  fld <> fld' -> get fld (spread_with fld' v s) = get fld s.
Proof. intros Hn. destruct fld, fld'; try reflexivity; contradiction. Qed.

Lemma typing_app edits1 edits2 f :
  typing (edits1 ++ edits2) f = typing edits2 (typing edits1 f).
Proof. unfold typing. apply fold_left_app. Qed.

Lemma typing_flags edits : forall f,
  loading (typing edits f) = loading f /\ ok (typing edits f) = ok f.
Proof.
  induction edits as [|e edits IH]; intros f; [split; reflexivity|].
  unfold typing in *. cbn [fold_left]. destruct (IH (onChange (fst e) (snd e) f)) as [Hl Ho].
  rewrite Hl, Ho. split; reflexivity.
Qed.

Lemma typing_get fld edits : forall f,
  get fld (state (typing edits f))
  = default (get fld (state f)) (last (typed_into fld edits)).
Proof.
  induction edits as [|[fld' v] edits IH] using rev_ind; intros f; [reflexivity|].
  rewrite typing_app. unfold typed_into. rewrite filter_app, map_app.
  unfold typing at 1. cbn [fold_left fst snd onChange state].
  rewrite filter_cons, filter_nil. cbn [fst].
  destruct (decide (fld' = fld)) as [-> | Hne].
  - cbn [map snd]. rewrite last_snoc. cbn [default]. apply get_spread_same.
  - cbn [map]. rewrite app_nil_r, get_spread_other by congruence. apply IH.
Qed.

(** X14.  What the user types is what is sent.  After any series of
    changes to the inputs, the one request of a submission is a POST to the
    webhook whose body holds, for every field, the value typed into it
    last, or the value it had before when nothing was typed into it,
    together with the source ["website"] and the time stamp. *)
Theorem typed_values_are_sent (edits : list (Field * string)) (f : Form)
    (webhook now : string) (net : Request -> FetchResult) (fld : Field) :
  requests (snd (submit webhook now net (typing edits f)))
    = [mkRequest webhook "POST" "application/json"
                 (mkBody "website" now (state (typing edits f)))] /\
  get fld (state (typing edits f))
    = default (get fld (state f)) (last (typed_into fld edits)).
Proof.
  rewrite submit_eq. split; [reflexivity | apply typing_get].
Qed.

(** X15.  A network error loses nothing: when [fetch] throws, the fields
    stay, and submitting again sends the same fields once more; the banner
    and the fields then follow the answer to the second request. *)
Theorem resubmit_after_network_error (webhook now1 now2 : string)
    (net : Request -> FetchResult) (f : Form) :
  fst (submit webhook now2 net
         (form (snd (submit webhook now1 (fun _ => Rejected) f)))) = Normal tt /\
  requests (snd (submit webhook now2 net
                   (form (snd (submit webhook now1 (fun _ => Rejected) f)))))
    = [mkRequest webhook "POST" "application/json" (mkBody "website" now2 (state f))] /\
  form (snd (submit webhook now2 net
               (form (snd (submit webhook now1 (fun _ => Rejected) f)))))
    = match net (mkRequest webhook "POST" "application/json"
                           (mkBody "website" now2 (state f))) with
      | Response status => mkForm blank false (Some (res_ok status))
      | Rejected => mkForm (state f) false (Some false)
      end.
Proof.
  rewrite (submit_eq webhook now1). cbn [snd form].
  rewrite submit_eq. cbn [fst snd form requests]. unfold request_of; cbn [state].
  repeat split; reflexivity.
Qed.

(** X16.  Typing never touches the submission state: the button stays as
    it was and no banner appears or disappears; and after a submission,
    however it ended, the button is enabled again and reads
    ["Submit request"]. *)
Theorem button_after_typing_and_submission (edits : list (Field * string)) (f : Form)
    (webhook now : string) (net : Request -> FetchResult) :
  button (typing edits f) = button f /\
  banners (typing edits f) = banners f /\
  button (form (snd (submit webhook now net f))) = (false, "Submit request").
Proof.
  destruct (typing_flags edits f) as [Hl Ho].
  unfold button, banners. rewrite Hl, Ho, submit_eq. cbn [snd form].
  repeat split; destruct (net _); reflexivity.
Qed.
End LeadInputsFacts.

(** ** The theme toggle *)

Module ThemeToggleFacts.
Import Theme ThemeFacts ThemeToggle.
#[local] Open Scope string_scope.

Lemma effect_in_step p : theme p <> "" -> in_step (effect p).
Proof.
  intros Hn. unfold effect. destruct (String.eqb_spec (theme p) ""); [contradiction|].
  unfold in_step, setItem; cbn. repeat split; [assumption | apply lookup_insert_eq].
Qed.

Lemma onClick_in_step p : in_step p -> in_step (onClick p).
Proof.
  intros Hp. unfold onClick, setTheme.
  destruct (String.eqb _ (theme p)); [exact Hp|].
  apply effect_in_step. cbn. destruct (String.eqb (theme p) "dark"); discriminate.
Qed.

Lemma clicks_in_step n : forall p, in_step p -> in_step (clicks n p).
Proof.
  induction n as [|n IH]; intros p Hp; cbn; [assumption | apply IH, onClick_in_step, Hp].
Qed.

Lemma clicks_S n : forall p, clicks (S n) p = onClick (clicks n p).
Proof.
  induction n as [|n IH]; intros p; [reflexivity|].
  change (clicks (S (S n)) p) with (clicks (S n) (onClick p)). rewrite IH. reflexivity.
Qed.

(** X17.  The three copies of the theme never drift apart: on a page
    loaded over any storage and clicked any number of times, the state
    cell is not empty, the stored value equals it, and the document
    carries the class [dark] exactly when it is ["dark"]. *)
Theorem theme_in_step (ls : gmap string string) (n : nat) :
  theme (clicks n (useTheme ls)) <> "" /\
  localStorage (clicks n (useTheme ls)) !! "theme" = Some (theme (clicks n (useTheme ls))) /\
  dark (clicks n (useTheme ls)) = String.eqb (theme (clicks n (useTheme ls))) "dark".
Proof.
  apply clicks_in_step. unfold useTheme. apply effect_in_step. cbn.
  apply initial_theme_nonempty.
Qed.

(** X18.  From the first click on the theme is ["dark"] or ["light"],
    and two more clicks bring the whole page (state cell, storage and
    class) back to what it was. *)
Theorem two_clicks_restore (ls : gmap string string) (n : nat) :
  (theme (clicks (S n) (useTheme ls)) = "dark" \/
   theme (clicks (S n) (useTheme ls)) = "light") /\
  onClick (onClick (clicks (S n) (useTheme ls))) = clicks (S n) (useTheme ls).
Proof.
  assert (Hs : in_step (clicks (S n) (useTheme ls))).
  { apply clicks_in_step. unfold useTheme. apply effect_in_step. cbn.
    apply initial_theme_nonempty. }
  assert (Ht : theme (clicks (S n) (useTheme ls)) = "dark" \/
               theme (clicks (S n) (useTheme ls)) = "light").
  { rewrite clicks_S. unfold onClick. rewrite setTheme_theme.
    destruct (String.eqb _ "dark"); [right | left]; reflexivity. }
  split; [exact Ht|].
  destruct (clicks (S n) (useTheme ls)) as [t st d].
  destruct Hs as (_ & Hst & Hd). cbn [theme localStorage dark] in *.
  destruct Ht as [-> | ->]; subst d;
    unfold onClick, setTheme, effect, setItem; cbn;
    rewrite insert_insert_eq, (insert_id st "theme" _ Hst); reflexivity.
Qed.

(** X19.  The button always names what a click on it does: it reads
    ["Light mode"] exactly when the click sets the theme to ["light"], and
    ["Dark mode"] when the click sets it to ["dark"], whatever the theme
    is, a stored value that is neither of the two included. *)
Theorem label_names_next_theme (p : Page) :
  (label (theme p) = "Light mode" /\ theme (onClick p) = "light") \/
  (label (theme p) = "Dark mode" /\ theme (onClick p) = "dark").
Proof.
  unfold onClick, label. rewrite setTheme_theme.
  destruct (String.eqb (theme p) "dark"); [left | right]; split; reflexivity.
Qed.

(** X20.  The stored value is taken as it is.  Any stored string that is
    not empty becomes the theme, is written back unchanged, and shows as
    light unless it is ["dark"]; the first click then sets ["dark"] (or
    ["light"] from ["dark"]).  A stored empty string counts as absent: the
    theme is ["dark"] and the storage is overwritten with it. *)
Theorem stored_value_is_not_validated (ls : gmap string string) (s : string) :
  s <> "" ->
  theme (useTheme (<["theme" := s]> ls)) = s /\
  localStorage (useTheme (<["theme" := s]> ls)) !! "theme" = Some s /\
  dark (useTheme (<["theme" := s]> ls)) = String.eqb s "dark" /\
  theme (onClick (useTheme (<["theme" := s]> ls)))
    = (if String.eqb s "dark" then "light" else "dark") /\
  theme (useTheme (<["theme" := ""]> ls)) = "dark" /\
  localStorage (useTheme (<["theme" := ""]> ls)) !! "theme" = Some "dark".
Proof.
  intros Hs.
  assert (Ht : theme (useTheme (<["theme" := s]> ls)) = s)
    by (apply load_theme; [apply lookup_insert_eq | exact Hs]).
  assert (Hi : in_step (useTheme (<["theme" := s]> ls)))
    by (unfold useTheme; apply effect_in_step; cbn; apply initial_theme_nonempty).
  destruct Hi as (_ & Hst & Hd). rewrite Ht in Hst, Hd.
  split; [exact Ht|]. split; [exact Hst|]. split; [exact Hd|].
  split; [unfold onClick; rewrite setTheme_theme, Ht; reflexivity|].
  unfold useTheme, initial_theme, getItem. rewrite lookup_insert_eq.
  cbn. split; [reflexivity | apply lookup_insert_eq].
Qed.

Lemma stored_value_is_not_validated_witness :
  theme (useTheme (<["theme" := "blue"]> ∅)) = "blue" /\
  localStorage (useTheme (<["theme" := "blue"]> ∅)) !! "theme" = Some "blue" /\
  dark (useTheme (<["theme" := "blue"]> ∅)) = String.eqb "blue" "dark" /\
  theme (onClick (useTheme (<["theme" := "blue"]> ∅)))
    = (if String.eqb "blue" "dark" then "light" else "dark") /\
  theme (useTheme (<["theme" := ""]> ∅)) = "dark" /\
  localStorage (useTheme (<["theme" := ""]> ∅)) !! "theme" = Some "dark".
Proof.
  apply (stored_value_is_not_validated ∅ "blue"). discriminate.
Defined.
End ThemeToggleFacts.

(** ** The navigation bar *)

Module NavFacts.
Import Nav.
#[local] Open Scope string_scope.

(** X21.  A click on a hash link does everything or nothing.  The
    handler prevents the default exactly when the link has a proper [href]
    whose selector finds an element; it then closes the menu, scrolls to
    that element and shows the link's address, or keeps the old address
    when [history.replaceState] throws, and does not throw itself.  In
    every other case (no [href], an empty one, ["#"], no such element, a
    malformed selector) it leaves the page exactly as it was and the
    default action to the browser; and it throws exactly when the [href]
    is proper and is not a selector. *)
Theorem hash_link_all_or_nothing (query : string -> Query) (replaces : string -> bool)
    (href : option string) (p : Page) :
  (default_prevented (onClick query replaces href p) = true <->
   exists h target, href = Some h /\ h <> "" /\ h <> "#" /\ query h = Found target) /\
  (default_prevented (onClick query replaces href p) = false ->
   page (onClick query replaces href p) = p) /\
  (threw (onClick query replaces href p) = true ->
   default_prevented (onClick query replaces href p) = false) /\
  (forall h target, href = Some h -> h <> "" -> h <> "#" -> query h = Found target ->
   onClick query replaces href p
   = mkHandled true false
       (mkPage false (Some target) (if replaces h then h else address p))) /\
  (threw (onClick query replaces href p) = true <->
   exists h, href = Some h /\ h <> "" /\ h <> "#" /\ query h = SyntaxError).
Proof.
  unfold onClick. destruct href as [h|].
  - destruct (String.eqb_spec h "") as [E1|E1]; cbn [orb].
    + subst h. repeat split; try discriminate; try reflexivity.
      * intros (h & tg & Hh & Hn & _). inversion Hh. congruence.
      * intros h tg Hh Hn. inversion Hh. congruence.
      * intros (h & Hh & Hn & _). inversion Hh. congruence.
    + destruct (String.eqb_spec h "#") as [E2|E2].
      * subst h. repeat split; try discriminate; try reflexivity.
        -- intros (h & tg & Hh & _ & Hn & _). inversion Hh. congruence.
        -- intros h tg Hh _ Hn. inversion Hh. congruence.
        -- intros (h & Hh & _ & Hn & _). inversion Hh. congruence.
      * destruct (query h) as [tg| |] eqn:Q; cbn; repeat split;
          try discriminate; try reflexivity.
        -- intros _. exists h, tg. repeat split; assumption.
        -- intros h' tg' Hh _ _ Q'. inversion Hh; subst h'. rewrite Q in Q'.
           inversion Q'. reflexivity.
        -- intros (h' & Hh & _ & _ & Q'). inversion Hh; subst h'. congruence.
        -- intros (h' & tg' & Hh & _ & _ & Q'). inversion Hh; subst h'. congruence.
        -- intros h' tg' Hh _ _ Q'. inversion Hh; subst h'. congruence.
        -- intros (h' & Hh & _ & _ & Q'). inversion Hh; subst h'. congruence.
        -- intros (h' & tg' & Hh & _ & _ & Q'). inversion Hh; subst h'. congruence.
        -- intros h' tg' Hh _ _ Q'. inversion Hh; subst h'. congruence.
        -- intros _. exists h. repeat split; assumption.
  - repeat split; try discriminate; try reflexivity.
    + intros (h & tg & Hh & _). discriminate.
    + intros (h & Hh & _). discriminate.
Qed.

Lemma run_app query replaces p evs1 evs2 :
  run query replaces p (evs1 ++ evs2) = run query replaces (run query replaces p evs1) evs2.
Proof. unfold run. apply fold_left_app. Qed.

Lemma step_closes query replaces p ev :
  closes query ev = true -> open (step query replaces p ev) = false.
Proof.
  destruct ev as [| |[h|]]; cbn; try discriminate; [reflexivity|].
  unfold onClick. destruct (String.eqb h "" || String.eqb h "#"); cbn; [discriminate|].
  destruct (query h); cbn; try discriminate. reflexivity.
Qed.

Lemma step_keeps query replaces p ev :
  closes query ev = false ->
  open (step query replaces p ev) = xorb (open p) (is_toggle ev).
Proof.
  destruct ev as [| |[h|]]; cbn; try discriminate; intros Hc.
  - destruct (open p); reflexivity.
  - unfold onClick. destruct (String.eqb h "" || String.eqb h "#"); cbn in *;
      [destruct (open p); reflexivity|].
    destruct (query h); cbn in *; try discriminate; destruct (open p); reflexivity.
  - destruct (open p); reflexivity.
Qed.

Lemma run_keeps query replaces evs : forall p,
  Forall (fun ev => closes query ev = false) evs ->
  open (run query replaces p evs)
  = xorb (open p) (Nat.odd (length (filter (fun ev => is_toggle ev = true) evs))).
Proof.
  induction evs as [|ev evs IH]; intros p Hall.
  - cbn. destruct (open p); reflexivity.
  - inversion Hall as [|? ? Hev Hrest]; subst.
    unfold run in *. cbn [fold_left]. rewrite (IH _ Hrest), (step_keeps _ _ _ _ Hev).
    rewrite filter_cons. destruct ev as [| |href]; cbn [is_toggle].
    + destruct (decide (true = true)) as [_|Hn]; [|contradiction].
      cbn [length]. rewrite Nat.odd_succ, <- Nat.negb_odd.
      destruct (open p), (Nat.odd _); reflexivity.
    + destruct (decide (false = true)) as [Hn|_]; [discriminate|].
      destruct (open p), (Nat.odd _); reflexivity.
    + destruct (decide (false = true)) as [Hn|_]; [discriminate|].
      destruct (open p), (Nat.odd _); reflexivity.
Qed.

(** X22.  The mobile menu is open exactly when the menu button has been
    clicked an odd number of times since the last event that closes it: a
    resize of the window, or a click on a hash link that carries the
    handler and whose target exists.  Clicks on links without a target do
    not count. *)
Theorem menu_open_parity (query : string -> Query) (replaces : string -> bool)
    (p : Page) (before after : list Event) (ev : Event) :
  closes query ev = true ->
  Forall (fun ev => closes query ev = false) after ->
  open (run query replaces p (before ++ ev :: after))
  = Nat.odd (length (filter (fun ev => is_toggle ev = true) after)).
Proof.
  intros Hc Hall. rewrite run_app. unfold run at 1. cbn [fold_left].
  fold (run query replaces (step query replaces (run query replaces p before) ev) after).
  rewrite (run_keeps _ _ _ _ Hall), (step_closes _ _ _ _ Hc). reflexivity.
Qed.

Lemma menu_open_parity_witness :
  open (run (fun h => if String.eqb h "#faq" then Found "faq" else NotFound)
            (fun _ => true) (mkPage false None "/")
            ([ToggleMenu] ++ LinkClicked (Some "#faq")
               :: [ToggleMenu; LinkClicked (Some "#nowhere"); ToggleMenu; ToggleMenu]))
  = Nat.odd (length (filter (fun ev => is_toggle ev = true)
                            [ToggleMenu; LinkClicked (Some "#nowhere"); ToggleMenu;
                             ToggleMenu])).
Proof.
  apply (menu_open_parity
           (fun h => if String.eqb h "#faq" then Found "faq" else NotFound)
           (fun _ => true) (mkPage false None "/") [ToggleMenu]
           [ToggleMenu; LinkClicked (Some "#nowhere"); ToggleMenu; ToggleMenu]
           (LinkClicked (Some "#faq"))).
  - reflexivity.
  - repeat constructor.
Defined.

Lemma or_default_nonempty v d : d <> "" -> or_default v d <> "".
Proof.
  intros Hd. unfold or_default. destruct v as [s|]; [|exact Hd].
  destruct (String.eqb_spec s ""); [exact Hd | assumption].
Qed.

Lemma or_default_keep s d : s <> "" -> or_default (Some s) d = s.
Proof. intros Hs. unfold or_default. destruct (String.eqb_spec s ""); [contradiction | reflexivity]. Qed.

(** X23.  Preparing an anchor never overwrites a [role] or [tabindex]
    the author wrote: one that has a value keeps it, one that is absent or
    empty gets ["link"] resp. ["0"], and every other attribute is left
    alone.  Of the inline style only [pointer-events] is set, to ["auto"],
    whatever it was, and no other declaration changes; the click listener
    is on the anchor afterwards; and preparing a second time changes
    nothing. *)
Theorem prepare_keeps_attributes (a : Element) (key : string) :
  getAttribute "role" (prepare a) = Some (or_default (getAttribute "role" a) "link") /\
  getAttribute "tabindex" (prepare a)
    = Some (or_default (getAttribute "tabindex" a) "0") /\
  (forall s, s <> "" -> getAttribute "role" a = Some s ->
             getAttribute "role" (prepare a) = Some s) /\
  (forall s, s <> "" -> getAttribute "tabindex" a = Some s ->
             getAttribute "tabindex" (prepare a) = Some s) /\
  (key <> "role" -> key <> "tabindex" ->
   getAttribute key (prepare a) = getAttribute key a) /\
  style (prepare a) !! "pointer-events" = Some "auto" /\
  (key <> "pointer-events" -> style (prepare a) !! key = style a !! key) /\
  listens (prepare a) = true /\
  prepare (prepare a) = prepare a.
Proof.
  destruct a as [attrs st ls].
  unfold prepare, setAttribute, getAttribute; cbn [attributes style listens].
  set (r := or_default (attrs !! "role") "link").
  rewrite (lookup_insert_ne attrs "role" "tabindex") by discriminate.
  set (ti := or_default (attrs !! "tabindex") "0").
  assert (Hr : <["tabindex" := ti]> (<["role" := r]> attrs) !! "role" = Some r).
  { rewrite lookup_insert_ne by discriminate. apply lookup_insert_eq. }
  assert (Ht : <["tabindex" := ti]> (<["role" := r]> attrs) !! "tabindex" = Some ti)
    by apply lookup_insert_eq.
  split; [exact Hr|]. split; [exact Ht|].
  split; [intros s Hs Hl; rewrite Hr; unfold r; rewrite Hl, or_default_keep by exact Hs;
          reflexivity|].
  split; [intros s Hs Hl; rewrite Ht; unfold ti; rewrite Hl, or_default_keep by exact Hs;
          reflexivity|].
  split; [intros H1 H2; rewrite !lookup_insert_ne by congruence; reflexivity|].
  split; [apply lookup_insert_eq|].
  split; [intros H1; rewrite lookup_insert_ne by congruence; reflexivity|].
  split; [reflexivity|].
  rewrite Hr.
  assert (Hrr : or_default (Some r) "link" = r)
    by (apply or_default_keep, or_default_nonempty; discriminate).
  assert (Htt : or_default (Some ti) "0" = ti)
    by (apply or_default_keep, or_default_nonempty; discriminate).
  rewrite Hrr.
  rewrite (insert_id (<["tabindex" := ti]> (<["role" := r]> attrs)) "role" r) by exact Hr.
  rewrite Ht, Htt.
  rewrite (insert_id (<["tabindex" := ti]> (<["role" := r]> attrs)) "tabindex" ti)
    by exact Ht.
  rewrite insert_insert_eq. reflexivity.
Qed.
End NavFacts.

(** ** The list of questions *)

Module FAQFacts.
Import FAQ.

Lemma rows_from_length len faqs : forall i, length (rows_from len i faqs) = length faqs.
Proof. induction faqs as [|f faqs IH]; intros i; cbn; [|rewrite IH]; reflexivity. Qed.

Lemma rows_from_lookup len faqs : forall i (j : nat) r,
  rows_from len i faqs !! j = Some r ->
  snd r = (i + Z.of_nat j <? len - 1) /\
  exists f, faqs !! j = Some f /\ fst r = f.
Proof.
  induction faqs as [|f faqs IH]; intros i j r Hl; [discriminate|].
  destruct j as [|j]; cbn in Hl.
  - inversion Hl; subst r. cbn. split; [f_equal; lia|].
    exists f. split; [reflexivity | destruct f; reflexivity].
  - apply IH in Hl. destruct Hl as (Hs & f' & Hf & Hr).
    split; [rewrite Hs; f_equal; lia|]. exists f'. split; assumption.
Qed.

Lemma dividers_from len faqs : forall i,
  (0 <= i)%Z -> (i + Z.of_nat (length faqs) = len)%Z ->
  length (filter (fun r : string * string * bool => snd r = true) (rows_from len i faqs))
  = (length faqs - 1)%nat.
Proof.
  induction faqs as [|f faqs IH]; intros i Hi Hlen; [reflexivity|].
  cbn [rows_from length]. rewrite filter_cons. cbn [snd].
  cbn [length] in Hlen.
  destruct faqs as [|g faqs].
  - cbn in Hlen. destruct (decide _) as [Ht|_]; [apply Z.ltb_lt in Ht; lia | reflexivity].
  - destruct (decide _) as [_|Hf].
    + cbn [length]. rewrite IH by (cbn [length] in *; lia). cbn [length]. lia.
    + exfalso. apply Hf. apply Z.ltb_lt. cbn [length] in Hlen. lia.
Qed.

(** X24.  The questions are separated, not followed, by dividers: the
    list renders one row per question in order, every row but the last
    ends with a divider and the last one does not, so that [n] questions
    show [n - 1] dividers and none shows none. *)
Theorem dividers_between_rows (faqs : list (string * string)) :
  length (rows faqs) = length faqs /\
  dividers faqs = (length faqs - 1)%nat /\
  forall (j : nat) (r : string * string * bool),
    rows faqs !! j = Some r ->
    faqs !! j = Some (fst r) /\
    snd r = negb (Nat.eqb (S j) (length faqs)).
Proof.
  unfold rows, dividers. split; [apply rows_from_length|].
  split; [apply dividers_from; lia|].
  intros j r Hl.
  assert (Hj : (j < length faqs)%nat).
  { apply lookup_lt_Some in Hl. rewrite rows_from_length in Hl. exact Hl. }
  apply rows_from_lookup in Hl. destruct Hl as (Hs & f & Hf & Hr).
  split; [rewrite Hr; exact Hf|]. rewrite Hs.
  destruct (Nat.eqb_spec (S j) (length faqs)) as [He | Hne]; cbn [negb].
  - apply Z.ltb_ge. lia.
  - apply Z.ltb_lt. lia.
Qed.
End FAQFacts.

(** ** The curves of [SoundWaves] *)

Module WavesFacts.
Import Waves.
#[local] Open Scope R_scope.

Lemma amp_bounds (i : nat) (t : R) :
  20 + INR i * 10 <= amp i t <= 40 + INR i * 10.
Proof.
  unfold amp. pose proof (SIN_bound (t * (12 / 10 + INR i * (2 / 10)))). lra.
Qed.



Lemma xs_loop_closed (n : nat) : forall (fuel k : nat) (W : Z),
  (6 * Z.of_nat k + 6 * Z.of_nat n - 6 < W)%Z ->
  (W <= 6 * Z.of_nat k + 6 * Z.of_nat n)%Z ->
  (n <= fuel)%nat ->
  xs_loop fuel (6 * Z.of_nat k) W = map (fun j => (6 * Z.of_nat j)%Z) (seq k n).
Proof.
  induction n as [|n IH]; intros fuel k W Hlo Hhi Hf.
  - destruct fuel; cbn [xs_loop seq map]; [reflexivity|].
    destruct (Z.ltb_spec (6 * Z.of_nat k) W); [lia | reflexivity].
  - destruct fuel as [|fuel]; [lia|]. cbn [xs_loop seq map].
    destruct (Z.ltb_spec (6 * Z.of_nat k) W); [|lia].
    f_equal. replace (6 * Z.of_nat k + 6)%Z with (6 * Z.of_nat (S k))%Z by lia.
    apply IH; lia.
Qed.

(** X26.  Every curve is one connected line across the canvas.  On a
    canvas of positive width [W] the loop visits exactly the multiples of
    6 from 0 up to the last one below [W], in increasing order and within
    [W] rounds; the path starts with the only [moveTo], at 0, and continues
    with [lineTo]s, the last of them less than 6 short of the right edge.
    On a canvas of width 0 nothing is drawn. *)
Theorem path_is_one_line (W : Z) :
  xs W = map (fun j => (6 * Z.of_nat j)%Z) (seq 0 (Z.to_nat ((W + 5) / 6))) /\
  (forall x, x ∈ xs W <-> (0 <= x < W)%Z /\ (x mod 6 = 0)%Z) /\
  ((W <= 0)%Z -> path W = []) /\
  ((0 < W)%Z ->
   path W = moveTo 0 :: map (fun j => lineTo (6 * Z.of_nat j))
                            (seq 1 (Z.to_nat ((W + 5) / 6) - 1)) /\
   exists x, last (xs W) = Some x /\ (W - 6 <= x < W)%Z).
Proof.
  assert (Hxs : xs W = map (fun j => (6 * Z.of_nat j)%Z) (seq 0 (Z.to_nat ((W + 5) / 6)))).
  { unfold xs. destruct (Z.le_gt_cases W 0) as [Hle | Hgt].
    - replace (Z.to_nat W) with 0%nat by lia.
      replace (Z.to_nat ((W + 5) / 6)) with 0%nat; [reflexivity|].
      assert ((W + 5) / 6 <= 0)%Z; [|lia].
      apply Z.lt_succ_r, Z.div_lt_upper_bound; lia.
    - pose proof (Z.div_mod (W + 5) 6 ltac:(lia)) as Hdm.
      pose proof (Z.mod_pos_bound (W + 5) 6 ltac:(lia)) as Hm.
      assert (Hq : (1 <= (W + 5) / 6)%Z) by (apply Z.div_le_lower_bound; lia).
      change 0%Z with (6 * Z.of_nat 0)%Z at 1.
      apply xs_loop_closed; lia. }
  split; [exact Hxs|]. split; [|split].
  - intros x. rewrite Hxs, list_elem_of_fmap. split.
    + intros (j & -> & Hj). apply list_elem_of_In, in_seq in Hj.
      pose proof (Z.div_mod (W + 5) 6 ltac:(lia)) as Hdm.
      pose proof (Z.mod_pos_bound (W + 5) 6 ltac:(lia)) as Hm.
      split; [|rewrite Z.mul_comm; apply Z.mod_mul; lia].
      destruct (Z.le_gt_cases ((W + 5) / 6) 0); lia.
    + intros (Hx & Hmod). exists (Z.to_nat (x / 6)).
      pose proof (Z.div_mod x 6 ltac:(lia)) as Hdm. rewrite Hmod in Hdm.
      assert (0 <= x / 6)%Z by (apply Z.div_pos; lia).
      split; [lia|]. apply list_elem_of_In, in_seq.
      pose proof (Z.div_mod (W + 5) 6 ltac:(lia)) as Hdm'.
      pose proof (Z.mod_pos_bound (W + 5) 6 ltac:(lia)) as Hm'.
      assert (x / 6 < (W + 5) / 6)%Z by lia. lia.
  - intros Hle. unfold path. rewrite Hxs.
    replace (Z.to_nat ((W + 5) / 6)) with 0%nat; [reflexivity|].
    assert ((W + 5) / 6 <= 0)%Z; [|lia].
    apply Z.lt_succ_r, Z.div_lt_upper_bound; lia.
  - intros Hgt.
    pose proof (Z.div_mod (W + 5) 6 ltac:(lia)) as Hdm.
    pose proof (Z.mod_pos_bound (W + 5) 6 ltac:(lia)) as Hm.
    assert (Hq : (1 <= (W + 5) / 6)%Z) by (apply Z.div_le_lower_bound; lia).
    destruct (Z.to_nat ((W + 5) / 6)) as [|n] eqn:En; [lia|].
    split.
    + unfold path. rewrite Hxs. cbn [seq map]. f_equal.
      replace (S n - 1)%nat with n by lia.
      rewrite map_map. apply map_ext_in. intros j Hj. apply in_seq in Hj.
      destruct (Z.eqb_spec (6 * Z.of_nat j) 0); [lia | reflexivity].
    + exists (6 * Z.of_nat n)%Z. split; [|lia].
      rewrite Hxs. rewrite seq_S, map_app. cbn [map]. apply last_snoc.
Qed.
End WavesFacts.

(** ** The hash links of the page *)

Module LinksFacts.
Import Stdlib.Strings.Ascii Nav Links.
#[local] Open Scope string_scope.

(** X27.  Which links of the page work.  Every hash link in the document
    is in one of three cases, whether the mobile menu is open or not.  The
    logo, the links of the bar and the calls to action in the body carry
    the click handler and point at a section that exists: a click is taken
    over, closes the menu and scrolls to that section.  The two footer
    links carry the handler but point at no section: a click does nothing
    and is left to the browser.  The links of the drawer are rendered
    after the handlers were attached and carry none: a click on them does
    not close the menu. *)
Theorem links_of_the_page (replaces : string -> bool) (p : Page) (o : bool) :
  Forall (fun a =>
            match place a with
            | Drawer => (a ∉ anchors) /\ click replaces a p = mkHandled false false p
            | Footer => (a ∈ anchors) /\ click replaces a p = mkHandled false false p
            | _ =>
                (a ∈ anchors) /\
                exists id, href a = String "#"%char id /\ (id ∈ ids) /\
                  click replaces a p
                  = mkHandled true false
                      (mkPage false (Some id)
                              (if replaces (href a) then href a else address p))
            end)
         (rendered o).
Proof.
  assert (listed : forall (a : Anchor) (l : list Anchor), bool_decide (a ∈ l) = true -> a ∈ l)
    by (intros a l H; exact (bool_decide_eq_true_1 _ H)).
  assert (unlisted : forall (a : Anchor) (l : list Anchor), bool_decide (a ∈ l) = false -> a ∉ l)
    by (intros a l H; exact (bool_decide_eq_false_1 _ H)).
  assert (known : forall (s : string) (l : list string), bool_decide (s ∈ l) = true -> s ∈ l)
    by (intros s l H; exact (bool_decide_eq_true_1 _ H)).
  destruct o; unfold rendered, links; cbn [map app];
    repeat (constructor;
            [ cbn [place];
              first
                [ split; [apply unlisted; vm_compute; reflexivity | reflexivity]
                | split; [apply listed; vm_compute; reflexivity | reflexivity]
                | split; [apply listed; vm_compute; reflexivity|];
                  eexists; split; [reflexivity|];
                  split; [apply known; vm_compute; reflexivity | reflexivity] ]
            | ]);
    constructor.
Qed.
End LinksFacts.

(** ** The service cards *)

Module CardsFacts.
Import Cards.
#[local] Open Scope string_scope.
#[local] Open Scope list_scope.

Lemma other_not_elem (ty : string) (h : Handler) (l : list (string * Handler)) :
  Forall (fun e => exists name, snd e = Other name) l ->
  (forall name, h <> Other name) ->
  ((ty, h) ∉ l) /\ filter (fun e => e <> (ty, h)) l = l.
Proof.
  intros Hl Hh. induction Hl as [|e l [name He] _ [IHn IHf]].
  - split; [apply not_elem_of_nil | reflexivity].
  - assert (e <> (ty, h)) as Hne.
    { intros ->. cbn in He. exact (Hh name He). }
    split.
    + rewrite not_elem_of_cons. split; [congruence | exact IHn].
    + rewrite filter_cons. destruct (decide (e <> (ty, h))) as [_|[]]; [|exact Hne].
      by rewrite IHf.
Qed.

Lemma filter_snoc_same (e : string * Handler) (l : list (string * Handler)) :
  filter (fun x => x <> e) (l ++ [e]) = filter (fun x => x <> e) l.
Proof.
  rewrite filter_app, filter_cons.
  destruct (decide (e <> e)) as [H|_]; [by destruct H|].
  by rewrite filter_nil, app_nil_r.
Qed.

Lemma teardown_setup (i : nat) (el : Card) :
  untouched el ->
  teardown (setup i el)
  = mkCard (<["tabindex" := "0"]> (<["role" := "button"]> (attrs el))) (handlers el) None.
Proof.
  intros [_ Hl]. unfold teardown, setup; cbn [slot attrs handlers].
  destruct (other_not_elem "click" (onActivate i) _ Hl) as [Hc Hfc]; [discriminate|].
  destruct (other_not_elem "keydown" (onKey i) _ Hl) as [Hk Hfk]; [discriminate|].
  f_equal. unfold addEventListener at 2.
  destruct (decide (("click", onActivate i) ∈ handlers el)) as [[]%Hc|_].
  unfold addEventListener.
  destruct (decide (("keydown", onKey i) ∈ handlers el ++ [("click", onActivate i)]))
    as [Hin|_].
  { apply elem_of_app in Hin as [[]%Hk|Hin]. apply list_elem_of_singleton in Hin.
    discriminate. }
  unfold removeEventListener.
  rewrite (filter_app _ (handlers el ++ _) [_]).
  rewrite (filter_snoc_same ("click", onActivate i) (handlers el)), Hfc.
  rewrite (filter_cons _ ("keydown", onKey i)), filter_nil.
  destruct (decide (("keydown", onKey i) <> ("click", onActivate i))) as [_|[]];
    [|discriminate].
  rewrite (filter_snoc_same ("keydown", onKey i) (handlers el)). exact Hfk.
Qed.

(** X28.  The service cards after the page is left.  On cards that carried
    none of its listeners, the effect of the page followed by its cleanup
    gives every card back the listeners it had and removes the property
    that held the two handlers, but the attributes role = button and
    tabindex = 0 the effect set stay on the card. *)
Theorem cards_after_cleanup (nodes : list Card) :
  Forall untouched nodes ->
  cleanup (effect nodes)
  = map (fun el =>
           mkCard (<["tabindex" := "0"]> (<["role" := "button"]> (attrs el)))
                  (handlers el) None)
        nodes.
Proof.
  unfold cleanup, effect.
  intros Hn. apply list_eq; intros i.
  rewrite !list_lookup_fmap, list_lookup_imap.
  destruct (nodes !! i) as [el|] eqn:Hi; cbn; [|reflexivity].
  f_equal. apply teardown_setup.
  exact (Forall_lookup_1 _ _ _ _ Hn Hi).
Qed.

(** One card without a role that carries a hover listener. *)
Lemma cards_after_cleanup_witness :
  let el := mkCard (<["class" := "group"]> ∅) [("mouseenter", Other "hover")] None in
  Forall untouched [el; el] /\
  cleanup (effect [el; el])
  = [mkCard (<["tabindex" := "0"]> (<["role" := "button"]> (attrs el))) (handlers el) None;
     mkCard (<["tabindex" := "0"]> (<["role" := "button"]> (attrs el))) (handlers el) None].
Proof.
  intros el.
  assert (Forall untouched [el; el]) as H.
  { repeat constructor; eexists; reflexivity. }
  split; [exact H | exact (cards_after_cleanup [el; el] H)].
Defined.
End CardsFacts.
